(** * Spectral-validation harness of sunfish-rs: a shallow embedding

    The analysis scripts ([analysis/utils/common.py], [analysis/utils/synth.py],
    [analysis/utils/interface.py], [analysis/analyze.py]) are translated
    function by function.  Python floats and NumPy [float64]/[complex128]
    values are modelled by the real numbers [R] (pairs of reals for complex
    values): rounding is not modelled.  The operations that leave the finite
    numbers on the inputs met here (division by a zero peak, logarithm of a
    zero bin) keep an explicit non-finite outcome.  The range of a double is
    modelled where it decides whether a call returns: a power at or beyond
    [2^1024] raises [OverflowError].  Python exceptions are an explicit
    error result. *)

From Stdlib Require Import String Ascii.
From Stdlib Require Import Reals Lra Lia ZArith Bool List.
Import ListNotations.

Open Scope Z_scope.
Open Scope R_scope.

(** ** Python results and exceptions *)

Module Py.

Inductive exn : Type :=
| ValueError
| IndexError
| ZeroDivisionError
| OverflowError
| EngineError.

Inductive result (A : Type) : Type :=
| Ok (a : A)
| Raise (e : exn).
Arguments Ok {A} a.
Arguments Raise {A} e.

Definition bind {A B : Type} (r : result A) (k : A -> result B) : result B :=
  match r with
  | Ok a => k a
  | Raise e => Raise e
  end.

Definition is_ok {A : Type} (r : result A) : bool :=
  match r with Ok _ => true | Raise _ => false end.

(** [range(a, b)] over Python integers. *)
Definition range (a b : Z) : list Z :=
  map (fun k => (a + Z.of_nat k)%Z) (seq 0 (Z.to_nat (b - a))).

(** Normalisation of one bound of a slice [xs[i:j]] on a sequence of
    length [len]: a negative bound counts from the end, and both are
    clamped to [0, len]. *)
Definition slice_bound (len i : Z) : Z :=
  if (i <? 0)%Z then Z.max 0 (i + len) else Z.min i len.

Definition slice_start (len : Z) (i : option Z) : Z :=
  match i with None => 0%Z | Some i => slice_bound len i end.

Definition slice_stop (len : Z) (j : option Z) : Z :=
  match j with None => len | Some j => slice_bound len j end.

(** [xs[i:j]] *)
Definition slice {A : Type} (xs : list A) (i j : option Z) : list A :=
  let len := Z.of_nat (length xs) in
  let a := slice_start len i in
  let b := slice_stop len j in
  firstn (Z.to_nat (b - a)) (skipn (Z.to_nat a) xs).

(** [float(r) != 0.0] *)
Definition nonzero (r : R) : bool :=
  if Req_dec_T r 0 then false else true.

(** [int(r)]: truncation toward zero. *)
Definition int (r : R) : Z :=
  if Rle_dec 0 r then Int_part r else (- Int_part (- r))%Z.

(** The range of a double: every finite double is below [2^1024], and
    [2^-1022] is the smallest positive normal one ([sys.float_info.min]).
    A real at or beyond [FLOAT_OVERFLOW] stands for a double that is
    infinite: a product does not raise, it gives [inf]. *)
Definition FLOAT_OVERFLOW : R := Rpower 2 1024.

(** [x ** y] on floats, for a positive base [x]: CPython raises
    [OverflowError] when the result is out of the range of a double; a
    result too small for a double is returned without an error. *)
Definition float_pow (x y : R) : result R :=
  if Rle_dec FLOAT_OVERFLOW (Rpower x y) then Raise OverflowError
  else Ok (Rpower x y).

End Py.

Import Py.

Notation "x <- c1 ;; c2" := (Py.bind c1 (fun x => c2))
  (at level 61, c1 at next level, right associativity).

(** ** The NumPy operations the scripts call, on one-dimensional arrays *)

Module Np.

(** [np.zeros(n)] *)
Definition zeros (n : Z) : result (list R) :=
  if (n <? 0)%Z then Raise ValueError else Ok (repeat 0 (Z.to_nat n)).

(** [np.linspace(start, stop, num)] with the default [endpoint=True]:
    [num] samples [start + i * step] with [step = (stop - start) / (num - 1)],
    the last one set to [stop] when [num > 1]; a single sample is [start]. *)
Definition linspace (start stop : R) (num : Z) : result (list R) :=
  if (num <? 0)%Z then Raise ValueError
  else
    let div := (num - 1)%Z in
    let delta := stop - start in
    let y := map (fun k : nat => INR k) (seq 0 (Z.to_nat num)) in
    let y :=
      if (0 <? div)%Z
      then map (fun v => v * (delta / IZR div) + start) y
      else map (fun v => v * delta + start) y in
    if (1 <? num)%Z then Ok (removelast y ++ [stop]) else Ok y.

(** The sample-wise product of two arrays of the same shape. *)
Definition zipmul (a b : list R) : list R :=
  map (fun p => fst p * snd p) (combine a b).

(** [a * b] with broadcasting of a length-one operand. *)
Definition multiply (a b : list R) : result (list R) :=
  if Nat.eqb (length a) (length b) then Ok (zipmul a b)
  else if Nat.eqb (length a) 1 then Ok (map (fun y => hd 0 a * y) b)
  else if Nat.eqb (length b) 1 then Ok (map (fun x => x * hd 0 b) a)
  else Raise ValueError.

(** [xs[i:j] = v]: the value is broadcast into the slice, whose length
    cannot change. *)
Definition set_slice (xs : list R) (i j : option Z) (v : list R)
  : result (list R) :=
  let len := Z.of_nat (length xs) in
  let a := Z.to_nat (slice_start len i) in
  let k := Z.to_nat (slice_stop len j - slice_start len i) in
  if Nat.eqb (length v) k
  then Ok (firstn a xs ++ v ++ skipn (a + k) xs)
  else if Nat.eqb (length v) 1
  then Ok (firstn a xs ++ repeat (hd 0 v) k ++ skipn (a + k) xs)
  else Raise ValueError.

(** [xs[i:j] *= m]: the product must have the shape of the slice. *)
Definition imul_slice (xs : list R) (i j : option Z) (m : list R)
  : result (list R) :=
  let view := slice xs i j in
  prod <- multiply view m ;;
  if Nat.eqb (length prod) (length view)
  then set_slice xs i j prod
  else Raise ValueError.

(** [xs[0]] and [xs[-1]] *)
Definition first (xs : list R) : result R :=
  match xs with
  | [] => Raise IndexError
  | x :: _ => Ok x
  end.

Definition last (xs : list R) : result R :=
  match xs with
  | [] => Raise IndexError
  | _ => Ok (List.last xs 0)
  end.

(** [np.sin] over an array *)
Definition sin_array (xs : list R) : list R := map sin xs.

(** [np.max] of a real array; the empty array has no maximum. *)
Definition max (xs : list R) : result R :=
  match xs with
  | [] => Raise ValueError
  | x :: rest => Ok (fold_left Rmax rest x)
  end.

(** Complex numbers as pairs (real part, imaginary part). *)
Definition complex : Type := (R * R)%type.

(** [np.abs] of a complex number *)
Definition cabs (z : complex) : R := sqrt (fst z * fst z + snd z * snd z).

(** [math.atan2(y, x)], the argument of [x + y j] in (-pi, pi]. *)
Definition atan2 (y x : R) : R :=
  if Rlt_dec 0 x then atan (y / x)
  else if Rlt_dec x 0 then
         if Rle_dec 0 y then atan (y / x) + PI else atan (y / x) - PI
  else if Rlt_dec 0 y then PI / 2
  else if Rlt_dec y 0 then - (PI / 2)
  else 0.

(** A [complex128] value: finite, with an infinite component, or NaN. *)
Inductive cvalue : Type :=
| Finite (re im : R)
| Infinite
| NotANumber.

(** [z / m] for a complex [z] and a real scalar [m]; a zero divisor gives a
    NaN for a zero [z] and infinite components otherwise. *)
Definition cdiv (z : complex) (m : R) : cvalue :=
  if Req_dec_T m 0 then
    if Req_dec_T (fst z) 0 then
      if Req_dec_T (snd z) 0 then NotANumber else Infinite
    else Infinite
  else Finite (fst z / m) (snd z / m).

(** [np.log10] on complex input: [(ln |z| + j arg z) / ln 10], and minus
    infinity at zero. *)
Definition log10 (v : cvalue) : cvalue :=
  match v with
  | Finite re im =>
      if Req_dec_T (cabs (re, im)) 0 then Infinite
      else Finite (ln (cabs (re, im)) / ln 10) (atan2 im re / ln 10)
  | Infinite => Infinite
  | NotANumber => NotANumber
  end.

(** [c * v] for a nonzero real scalar [c]. *)
Definition scale (c : R) (v : cvalue) : cvalue :=
  match v with
  | Finite re im => Finite (c * re) (c * im)
  | Infinite => Infinite
  | NotANumber => NotANumber
  end.

(** Bin [k] of the discrete Fourier transform of [x]:
    the sum over [m] of [x[m] * exp(-2 pi j m k / n)]. *)
Definition dft_bin (x : list R) (k : nat) : complex :=
  let n := INR (length x) in
  fold_left
    (fun (acc : complex) (p : nat * R) =>
       let w := 2 * PI * INR (fst p) * INR k / n in
       (fst acc + snd p * cos w, snd acc - snd p * sin w))
    (combine (seq 0 (length x)) x) (0, 0).

(** [numpy.fft.rfft]: the bins [0 .. n/2] of the transform of a real
    signal of [n] samples; an empty signal is refused. *)
Definition rfft (x : list R) : result (list complex) :=
  match x with
  | [] => Raise ValueError
  | _ => Ok (map (dft_bin x) (seq 0 (Nat.div (length x) 2 + 1)))
  end.

(** [numpy.fft.rfftfreq(n, d)]: [k / (n * d)] for [k = 0 .. n/2]. *)
Definition rfftfreq (n : Z) (d : R) : result (list R) :=
  if Req_dec_T (IZR n * d) 0 then Raise ZeroDivisionError
  else
    let val := 1 / (IZR n * d) in
    Ok (map (fun k => IZR k * val) (range 0 (n / 2 + 1))).

End Np.

(** ** utils/common.py *)

Module Common.

Definition freq_for (note : Z) : result R :=
  let base_note := IZR (note - 69) in
  p <- Py.float_pow 2 (base_note / 12) ;;
  Ok (440 * p).

Definition smooth_edges (signal : list R) (amt : Z) : result (list R) :=
  if (amt =? 0)%Z then Ok signal
  else
    s0 <- Np.first signal ;;
    signal <-
      (if nonzero s0 then
         let target := 1 in
         mask <- Np.linspace 0 target amt ;;
         let stop := Some (Z.of_nat (length mask)) in
         prod <- Np.multiply (slice signal (Some 0%Z) stop) mask ;;
         Np.set_slice signal (Some 0%Z) stop prod
       else Ok signal) ;;
    sl <- Np.last signal ;;
    signal <-
      (if nonzero sl then
         let target := 1 in
         mask <- Np.linspace target 0 amt ;;
         Np.imul_slice signal (Some (- Z.of_nat (length mask))%Z) None mask
       else Ok signal) ;;
    Ok signal.

Definition fft (signal : list R) (sample_rate : R)
  : result (list R * list Np.cvalue) :=
  t <- (if Req_dec_T sample_rate 0 then Raise ZeroDivisionError
        else Ok (1 / sample_rate)) ;;
  let n := Z.of_nat (length signal) in
  yf <- Np.rfft signal ;;
  freqs <- Np.rfftfreq n t ;;
  let xf := slice freqs None (Some (Z.of_nat (length yf))) in
  peak <- Np.max (map Np.cabs yf) ;;
  let y_db := map (fun z => Np.scale 20 (Np.log10 (Np.cdiv z peak))) yf in
  Ok (xf, y_db).

End Common.

(** ** utils/synth.py *)

Module Synth.

Definition get_amp (harmonic : Z) : R :=
  if (harmonic mod 2 =? 0)%Z then -1 else 1.

Record FreqComponent : Type := {
  freq : R;
  amp : R;
  divisor : R
}.

Definition TAU : R := 2 * PI.

(** The inner loop: the sum over the components below the cut-off. *)
Definition sample_at (components : list FreqComponent) (cut_at time : R) : R :=
  fold_left
    (fun v c =>
       if Rle_dec cut_at (freq c) then v
       else v + amp c * (sin (TAU * freq c * time) / divisor c))
    components 0.

(** The outer loop over [range(n)], threading the running [time]. *)
Fixpoint fill (components : list FreqComponent) (cut_at dt : R)
  (count : nat) (time : R) : list R :=
  match count with
  | O => []
  | S count' =>
      sample_at components cut_at time
        :: fill components cut_at dt count' (time + dt)
  end.

Definition create_saw (sample_rate : R) (n : Z) (f0 : R) (harmonics : Z)
  (cut_at : option R) : result (list R) :=
  let components :=
    map (fun i => {| freq := IZR i * f0; amp := get_amp i; divisor := IZR i |})
        (range 1 (harmonics + 1)) in
  let nyquist := sample_rate / 2 in
  let cut_at :=
    match cut_at with
    | Some c => if nonzero c then c else nyquist
    | None => nyquist
    end in
  dt <- (if Req_dec_T sample_rate 0 then Raise ZeroDivisionError
         else Ok (1 / sample_rate)) ;;
  let time := 0 in
  out <- Np.zeros n ;;
  Ok (fill components cut_at dt (length out) time).

End Synth.

(** ** utils/interface.py *)

Module Interface.

Definition dquote : string := String (ascii_of_nat 34) EmptyString.

(** Each element opens one JSON object around the [null] leaf. *)
Definition eparam_path (elms : list string) : string :=
  let start_end :=
    fold_left
      (fun (se : string * string) (elm : string) =>
         ((fst se ++ "{" ++ dquote ++ elm ++ dquote ++ ": ")%string,
          (snd se ++ "}")%string))
      elms (EmptyString, EmptyString) in
  (fst start_end ++ "null" ++ snd start_end)%string.

End Interface.

(** ** The engine collaborator [pysunfish.CoreWrapper]

    The synthesizer is opaque: a state and the four operations the
    scripts call, each of which may fail. *)

Record Engine : Type := {
  synth : Type;
  core_wrapper : Z -> result synth;
  update_param : synth -> string -> R -> result synth;
  note_on : synth -> Z -> result synth;
  render : synth -> Z -> Z -> string -> result (list R * list R * synth);
  note_off : synth -> Z -> result synth
}.

(** The calls made to the engine, in order. *)
Inductive engine_call : Type :=
| CoreWrapperCall (sample_rate : Z)
| UpdateParamCall (path : string) (value : R)
| NoteOnCall (note : Z)
| RenderCall (chunk_size samples : Z) (shape : string)
| NoteOffCall (note : Z).

(** Computations that may raise and that record the engine calls made:
    the calls made so far are kept when an exception is raised. *)
Definition M (A : Type) : Type := list engine_call -> result A * list engine_call.

Definition retM {A : Type} (a : A) : M A := fun tr => (Ok a, tr).

Definition bindM {A B : Type} (m : M A) (k : A -> M B) : M B :=
  fun tr =>
    match m tr with
    | (Ok a, tr') => k a tr'
    | (Raise e, tr') => (Raise e, tr')
    end.

Definition lift {A : Type} (r : result A) : M A := fun tr => (r, tr).

(** One call to the engine: recorded, then its outcome. *)
Definition call {A : Type} (c : engine_call) (r : result A) : M A :=
  fun tr => (r, tr ++ [c]).

Notation "x <~ c1 ;; c2" := (bindM c1 (fun x => c2))
  (at level 61, c1 at next level, right associativity).

(** A computation emits only calls satisfying [P]: whatever the calls
    made before it, it only appends calls that satisfy [P]. *)
Definition emits {A : Type} (P : engine_call -> Prop) (m : M A) : Prop :=
  forall tr, exists ext, snd (m tr) = tr ++ ext /\ Forall P ext.

Definition is_note_off (c : engine_call) : Prop :=
  match c with NoteOffCall _ => True | _ => False end.

(** An engine that never fails and renders silence. *)
Definition silent_engine : Engine := {|
  synth := unit;
  core_wrapper := fun _ => Ok tt;
  update_param := fun _ _ _ => Ok tt;
  note_on := fun _ _ => Ok tt;
  render := fun _ _ samples _ =>
    Ok (repeat 0 (Z.to_nat samples), repeat 0 (Z.to_nat samples), tt);
  note_off := fun _ _ => Ok tt
|}.

(** ** analyze.py *)

Module Analyze.

Definition SAMPLE_RATE : Z := 44100.
Definition SMOOTH_SAMPLES : Z := 500.
Definition TAU : R := 2 * PI.
Definition DEFAULT_CHUNK_SIZE : Z := 1024.

(** [str.lower] and [str.strip] on ASCII text. *)
Definition lower_char (c : ascii) : ascii :=
  let n := nat_of_ascii c in
  if (Nat.leb 65 n && Nat.leb n 90)%bool then ascii_of_nat (n + 32) else c.

Definition is_space (c : ascii) : bool :=
  let n := nat_of_ascii c in
  (Nat.eqb n 32 || (Nat.leb 9 n && Nat.leb n 13)
   || (Nat.leb 28 n && Nat.leb n 31))%bool.

Fixpoint lstrip (cs : list ascii) : list ascii :=
  match cs with
  | c :: rest => if is_space c then lstrip rest else cs
  | [] => []
  end.

Definition lower (s : string) : string :=
  string_of_list_ascii (map lower_char (list_ascii_of_string s)).

Definition strip (s : string) : string :=
  string_of_list_ascii
    (rev (lstrip (rev (lstrip (list_ascii_of_string s))))).

Definition shape_float (shape : string) : result R :=
  let shape := strip (lower shape) in
  if String.eqb shape "sine" then Ok 0
  else if String.eqb shape "softsaw" then Ok (4 / 10)
  else if String.eqb shape "hardsaw" then Ok (7 / 10)
  else Raise ValueError.

Section WithEngine.

Variable E : Engine.

Definition initialize_synth (s : synth E) (shape : string) : M (synth E) :=
  let path a b := Interface.eparam_path [a; b] in
  let set (s : synth E) (p : string) (v : R) : M (synth E) :=
    call (UpdateParamCall p v) (update_param E s p v) in
  s <~ set s (path "Osc1" "Enable")%string 1 ;;
  v <~ lift (shape_float shape) ;;
  s <~ set s (path "Osc1" "Shape")%string v ;;
  s <~ set s (path "Osc2" "Enable")%string 0 ;;
  s <~ set s (path "Filt1" "Enable")%string 0 ;;
  s <~ set s (path "Filt2" "Enable")%string 0 ;;
  s <~ set s (path "AmpEnv" "Attack")%string (1 / 10) ;;
  s <~ set s (path "AmpEnv" "Sustain")%string 1 ;;
  s <~ set s (path "AmpEnv" "Decay")%string 1 ;;
  s <~ set s (path "AmpEnv" "Release")%string 1 ;;
  retM s.

(** What [plot_waves] draws: the smoothed rendered signal, the smoothed
    ideal sine, and the spectrum of the rendered signal. *)
Record waves : Type := {
  w_signal : list R;
  w_ys_plot : list R;
  w_xf : list R;
  w_y_db : list Np.cvalue
}.

Definition plot_waves (time_sec : R) (note : Z) (shape : string)
  (smooth_samples chunk_size : Z) (cut_start cut_end : option Z) : M waves :=
  let buf_len := Py.int (time_sec * IZR SAMPLE_RATE) in
  freq <~ lift (Common.freq_for note) ;;
  ts <~ lift (Np.linspace 0 time_sec buf_len) ;;
  let ys := Np.sin_array (map (fun t => TAU * freq * t) ts) in
  s <~ call (CoreWrapperCall SAMPLE_RATE) (core_wrapper E SAMPLE_RATE) ;;
  s <~ initialize_synth s shape ;;
  s <~ call (NoteOnCall note) (note_on E s note) ;;
  lrs <~ call (RenderCall chunk_size buf_len shape)
              (render E s chunk_size buf_len shape) ;;
  let signal_left := fst (fst lrs) in
  let start := match cut_start with Some c => c | None => 0%Z end in
  let end_ := match cut_end with Some c => c | None => buf_len end in
  let plot_len := (end_ - start)%Z in
  let signal := slice signal_left (Some start) (Some end_) in
  signal <~ lift (Common.smooth_edges signal smooth_samples) ;;
  let amp := 1 in
  ys_smooth <~ lift (Common.smooth_edges (slice ys None (Some plot_len))
                                         smooth_samples) ;;
  let ys_plot := map (fun y => amp * y) ys_smooth in
  xf_ydb <~ lift (Common.fft signal (IZR SAMPLE_RATE)) ;;
  retM {| w_signal := signal; w_ys_plot := ys_plot;
          w_xf := fst xf_ydb; w_y_db := snd xf_ydb |}.

(** One iteration of the sweep: the columns appended to [spectra_ideal]
    and to [spectra] for one note. *)
Definition heatmap_note (shape : string) (length_sec : R) (samples : Z)
  (harmonics smooth_samples chunk_size note : Z)
  : M (list Np.cvalue * list Np.cvalue) :=
  freq <~ lift (Common.freq_for note) ;;
  ts <~ lift (Np.linspace 0 length_sec samples) ;;
  signal <~ lift (Synth.create_saw (IZR SAMPLE_RATE) samples freq harmonics None) ;;
  signal_smooth <~ lift (Common.smooth_edges signal smooth_samples) ;;
  xf_ydb <~ lift (Common.fft signal_smooth (IZR SAMPLE_RATE)) ;;
  let ideal_col := snd xf_ydb in
  s <~ call (CoreWrapperCall SAMPLE_RATE) (core_wrapper E SAMPLE_RATE) ;;
  s <~ initialize_synth s shape ;;
  s <~ call (NoteOnCall note) (note_on E s note) ;;
  lrs <~ call (RenderCall chunk_size samples shape)
              (render E s chunk_size samples shape) ;;
  let l := fst (fst lrs) in
  s <~ call (NoteOffCall note) (note_off E (snd lrs) note) ;;
  signal_smooth <~ lift (Common.smooth_edges signal smooth_samples) ;;
  xf_ydb <~ lift (Common.fft signal_smooth (IZR SAMPLE_RATE)) ;;
  retM (ideal_col, snd xf_ydb).

(** The loop over [range(note_start, note_end)], appending one column to
    each of the two lists per note. *)
Fixpoint heatmap_loop (body : Z -> M (list Np.cvalue * list Np.cvalue))
  (notes : list Z) (spectra_ideal spectra : list (list Np.cvalue))
  : M (list (list Np.cvalue) * list (list Np.cvalue)) :=
  match notes with
  | [] => retM (spectra_ideal, spectra)
  | note :: rest =>
      cols <~ body note ;;
      heatmap_loop body rest (spectra_ideal ++ [fst cols]) (spectra ++ [snd cols])
  end.

(** [np.array(columns).T] for columns of equal length. *)
Fixpoint transpose {A : Type} (columns : list (list A)) : list (list A) :=
  match columns with
  | [] => []
  | [col] => map (fun x => [x]) col
  | col :: rest => map (fun p => fst p :: snd p) (combine col (transpose rest))
  end.

Definition harmonics_of (shape : string) : result Z :=
  let SOFT_SAW_HARMONICS := 8%Z in
  let HARD_SAW_HARMONICS := 64%Z in
  if String.eqb shape "sine" then Ok 1%Z
  else if String.eqb shape "softsaw" then Ok SOFT_SAW_HARMONICS
  else if String.eqb shape "hardsaw" then Ok HARD_SAW_HARMONICS
  else Raise ValueError.

(** The two lists of columns at the end of the loop of [heatmap]. *)
Definition heatmap_spectra (shape : string) (length_sec : R)
  (note_start note_end smooth_samples : Z)
  : M (list (list Np.cvalue) * list (list Np.cvalue)) :=
  let samples := Py.int (length_sec * IZR SAMPLE_RATE) in
  let chunk_size := 1024%Z in
  let shape := strip (lower shape) in
  harmonics <~ lift (harmonics_of shape) ;;
  heatmap_loop
    (heatmap_note shape length_sec samples harmonics smooth_samples chunk_size)
    (range note_start note_end) [] [].

(** [heatmap] up to the drawing: the matrices [spectra_ideal] and
    [spectra], rows being frequency bins and columns notes. *)
Definition heatmap (shape : string) (length_sec : R)
  (note_start note_end smooth_samples : Z) (color_map : string)
  : M (list (list Np.cvalue) * list (list Np.cvalue)) :=
  cols <~ heatmap_spectra shape length_sec note_start note_end smooth_samples ;;
  retM (transpose (fst cols), transpose (snd cols)).

End WithEngine.

End Analyze.

(** ** The engine calls of the sweep, and engines that do not fail *)

(** The nine parameter updates of [initialize_synth], in order, for the
    oscillator value [v] of the shape. *)
Definition initialize_synth_calls (v : R) : list engine_call :=
  let path a b := Interface.eparam_path [a; b] in
  [ UpdateParamCall (path "Osc1" "Enable")%string 1;
    UpdateParamCall (path "Osc1" "Shape")%string v;
    UpdateParamCall (path "Osc2" "Enable")%string 0;
    UpdateParamCall (path "Filt1" "Enable")%string 0;
    UpdateParamCall (path "Filt2" "Enable")%string 0;
    UpdateParamCall (path "AmpEnv" "Attack")%string (1 / 10);
    UpdateParamCall (path "AmpEnv" "Sustain")%string 1;
    UpdateParamCall (path "AmpEnv" "Decay")%string 1;
    UpdateParamCall (path "AmpEnv" "Release")%string 1 ].

(** The calls of one iteration of the loop of [heatmap]. *)
Definition sweep_note_calls (v : R) (samples : Z) (shape : string) (note : Z)
  : list engine_call :=
  CoreWrapperCall Analyze.SAMPLE_RATE
    :: initialize_synth_calls v
    ++ [NoteOnCall note; RenderCall 1024 samples shape; NoteOffCall note].

(** An engine none of whose operations raises. *)
Definition reliable (E : Engine) : Prop :=
  (forall sr, exists s, core_wrapper E sr = Ok s)
  /\ (forall s p v, exists s', update_param E s p v = Ok s')
  /\ (forall s n, exists s', note_on E s n = Ok s')
  /\ (forall s c n sh, exists lrs, render E s c n sh = Ok lrs)
  /\ (forall s n, exists s', note_off E s n = Ok s').

(** * Properties *)

Import Common.

(** ** PitchConverter: [freq_for] *)

Lemma float_pow_two (y : R) : y < 1024 -> float_pow 2 y = Ok (Rpower 2 y).
Proof.
  intro Hy. unfold float_pow, FLOAT_OVERFLOW.
  destruct (Rle_dec (Rpower 2 1024) (Rpower 2 y)) as [Hle | _]; [| reflexivity].
  pose proof (Rpower_lt 2 y 1024 ltac:(lra) Hy). lra.
Qed.

Lemma float_pow_two_overflow (y : R) :
  1024 <= y -> float_pow 2 y = Raise OverflowError.
Proof.
  intro Hy. unfold float_pow, FLOAT_OVERFLOW.
  destruct (Rle_dec (Rpower 2 1024) (Rpower 2 y)) as [_ | Hn]; [reflexivity |].
  exfalso. apply Hn. destruct Hy as [Hy | <-]; [| lra].
  left. apply Rpower_lt; lra.
Qed.

(** Every note below 12357 has a frequency, given by the formula. *)
Lemma freq_for_returns (note : Z) :
  (note < 12357)%Z ->
  freq_for note = Ok (440 * Rpower 2 (IZR (note - 69) / 12)).
Proof.
  intro Hn. unfold freq_for. cbv zeta.
  rewrite float_pow_two; [reflexivity |].
  assert (H : IZR (note - 69) < IZR 12288) by (apply IZR_lt; lia).
  lra.
Qed.

(** From note 12357 on the power is [2.0 ** 1024.0] or more. *)
Lemma freq_for_overflow (note : Z) :
  (12357 <= note)%Z -> freq_for note = Raise OverflowError.
Proof.
  intro Hn. unfold freq_for. cbv zeta.
  rewrite float_pow_two_overflow; [reflexivity |].
  assert (H : IZR 12288 <= IZR (note - 69)) by (apply IZR_le; lia).
  lra.
Qed.

Lemma freq_for_value (note : Z) (f : R) :
  freq_for note = Ok f ->
  (note < 12357)%Z /\ f = 440 * Rpower 2 (IZR (note - 69) / 12).
Proof.
  intro H. destruct (Z_lt_le_dec note 12357) as [Hlt | Hge].
  - rewrite (freq_for_returns note Hlt) in H. split; [exact Hlt | congruence].
  - rewrite (freq_for_overflow note Hge) in H. discriminate.
Qed.

Lemma freq_for_pos (note : Z) (f : R) : freq_for note = Ok f -> 0 < f.
Proof.
  intro H. apply freq_for_value in H. destruct H as [_ ->].
  unfold Rpower. apply Rmult_lt_0_compat; [lra | apply exp_pos].
Qed.

Lemma freq_for_A4 : freq_for 69 = Ok 440.
Proof.
  rewrite freq_for_returns by lia. f_equal.
  replace (IZR (69 - 69) / 12) with 0 by (simpl; lra).
  rewrite Rpower_O by lra. lra.
Qed.

Lemma freq_for_lt (a b : Z) (fa fb : R) :
  (a < b)%Z -> freq_for a = Ok fa -> freq_for b = Ok fb -> fa < fb.
Proof.
  intros Hab Ha Hb.
  apply freq_for_value in Ha. destruct Ha as [_ ->].
  apply freq_for_value in Hb. destruct Hb as [_ ->].
  apply Rmult_lt_compat_l; [lra |].
  apply Rpower_lt; [lra |].
  apply Rmult_lt_compat_r; [lra |].
  apply IZR_lt. lia.
Qed.

(** *** Where the frequency is a finite double *)












(** ** EdgeSmoother: [smooth_edges] *)

Import Np (zipmul).

Lemma nonzero_true (r : R) : r <> 0 -> nonzero r = true.
Proof. intro H. unfold nonzero. destruct (Req_dec_T r 0); [contradiction | reflexivity]. Qed.

Lemma nonzero_false (r : R) : r = 0 -> nonzero r = false.
Proof. intro H. unfold nonzero. destruct (Req_dec_T r 0); [reflexivity | contradiction]. Qed.

Lemma nonzero_spec (r : R) : nonzero r = true <-> r <> 0.
Proof.
  unfold nonzero. destruct (Req_dec_T r 0); split; intros; try easy.
Qed.

Lemma removelast_len {A : Type} (l : list A) :
  length (removelast l) = pred (length l).
Proof.
  induction l as [| x [| y l'] IH]; simpl in *; auto.
Qed.

Lemma nth_zipmul (xs ys : list R) (i : nat) :
  length xs = length ys ->
  nth i (zipmul xs ys) 0 = nth i xs 0 * nth i ys 0.
Proof.
  unfold zipmul.
  revert ys i. induction xs as [| x xs IH]; intros [| y ys] i Hlen;
    simpl in Hlen; try discriminate.
  - destruct i; simpl; lra.
  - destruct i; simpl; [reflexivity | apply IH; lia].
Qed.

Lemma length_zipmul (xs ys : list R) :
  length xs = length ys -> length (zipmul xs ys) = length xs.
Proof.
  intro H. unfold zipmul. rewrite length_map, length_combine, <- H. apply Nat.min_id.
Qed.

Lemma last_nth (l : list R) : List.last l 0 = nth (pred (length l)) l 0.
Proof.
  induction l as [| x [| y l'] IH]; simpl in *; auto.
Qed.

(** The ramps of [np.linspace]: length, first and last sample. *)
Lemma linspace_ok (start stop : R) (num : Z) :
  (0 <= num)%Z ->
  exists mask,
    Np.linspace start stop num = Ok mask
    /\ length mask = Z.to_nat num
    /\ ((1 <= num)%Z -> nth 0 mask 0 = start)
    /\ ((2 <= num)%Z -> List.last mask 0 = stop)
    /\ (num = 1%Z -> mask = [start]).
Proof.
  intro Hnum. unfold Np.linspace.
  destruct (Z.ltb_spec num 0) as [Hneg | _]; [lia |].
  cbv zeta.
  destruct (Z.ltb_spec 1 num) as [Hbig | Hsmall].
  - destruct (Z.ltb_spec 0 (num - 1)) as [_ | Hc]; [| lia].
    eexists; split; [reflexivity |].
    remember (Z.to_nat num) as a eqn:Ha.
    assert (Ha2 : (2 <= a)%nat) by lia.
    destruct a as [| [| a']]; try lia.
    repeat split.
    + rewrite length_app, removelast_len, !length_map, length_seq. simpl. lia.
    + intros _. simpl. lra.
    + intros _. apply last_last.
    + intros ->. lia.
  - destruct (Z.ltb_spec 0 (num - 1)) as [Hc | _]; [lia |].
    eexists; split; [reflexivity |].
    repeat split.
    + now rewrite !length_map, length_seq.
    + intros H1. assert (num = 1%Z) as -> by lia. simpl. lra.
    + intros H2. lia.
    + intros ->. simpl. f_equal. lra.
Qed.

Lemma linspace_negative (start stop : R) (num : Z) :
  (num < 0)%Z -> Np.linspace start stop num = Raise ValueError.
Proof.
  intro H. unfold Np.linspace.
  destruct (Z.ltb_spec num 0); [reflexivity | lia].
Qed.

Lemma slice_prefix {A : Type} (xs : list A) (k : nat) :
  (k <= length xs)%nat ->
  slice xs (Some 0%Z) (Some (Z.of_nat k)) = firstn k xs.
Proof.
  intro Hk. unfold slice, slice_start, slice_stop, slice_bound.
  change (0 <? 0)%Z with false. cbv iota.
  destruct (Z.ltb_spec (Z.of_nat k) 0); [lia |].
  rewrite !Z.min_l by lia.
  now rewrite Z.sub_0_r, Nat2Z.id.
Qed.

Lemma slice_suffix {A : Type} (xs : list A) (k : nat) :
  (1 <= k <= length xs)%nat ->
  slice xs (Some (- Z.of_nat k)%Z) None = skipn (length xs - k) xs.
Proof.
  intro Hk. unfold slice, slice_start, slice_stop, slice_bound.
  destruct (Z.ltb_spec (- Z.of_nat k) 0); [| lia].
  rewrite Z.max_r by lia.
  replace (Z.to_nat (- Z.of_nat k + Z.of_nat (length xs))) with (length xs - k)%nat by lia.
  apply firstn_all2. rewrite length_skipn. lia.
Qed.

Lemma set_slice_prefix (xs v : list R) (k : nat) :
  (k <= length xs)%nat -> length v = k ->
  Np.set_slice xs (Some 0%Z) (Some (Z.of_nat k)) v = Ok (v ++ skipn k xs).
Proof.
  intros Hk Hv. unfold Np.set_slice, slice_start, slice_stop, slice_bound.
  change (0 <? 0)%Z with false. cbv iota.
  destruct (Z.ltb_spec (Z.of_nat k) 0); [lia |].
  rewrite !Z.min_l by lia.
  rewrite Z.sub_0_r, Nat2Z.id, Hv, Nat.eqb_refl. reflexivity.
Qed.

Lemma set_slice_suffix (xs v : list R) (k : nat) :
  (1 <= k <= length xs)%nat -> length v = k ->
  Np.set_slice xs (Some (- Z.of_nat k)%Z) None v
  = Ok (firstn (length xs - k) xs ++ v).
Proof.
  intros Hk Hv. unfold Np.set_slice, slice_start, slice_stop, slice_bound.
  destruct (Z.ltb_spec (- Z.of_nat k) 0); [| lia].
  rewrite Z.max_r by lia.
  replace (Z.to_nat (Z.of_nat (length xs) - (- Z.of_nat k + Z.of_nat (length xs))))
    with k by lia.
  replace (Z.to_nat (- Z.of_nat k + Z.of_nat (length xs))) with (length xs - k)%nat by lia.
  rewrite Hv, Nat.eqb_refl.
  rewrite (skipn_all2 xs) by lia. now rewrite app_nil_r.
Qed.

Lemma multiply_same (a b : list R) :
  length a = length b -> Np.multiply a b = Ok (zipmul a b).
Proof.
  intro H. unfold Np.multiply. now rewrite H, Nat.eqb_refl.
Qed.

(** The rising ramp on a signal of at least [amt] samples: the first
    [amt] samples are multiplied by the mask, the rest is kept. *)
Lemma ramp_up_ok (signal : list R) (amt : Z) :
  (1 <= amt <= Z.of_nat (length signal))%Z ->
  exists mask,
    Np.linspace 0 1 amt = Ok mask
    /\ length mask = Z.to_nat amt
    /\ (mask <- Np.linspace 0 1 amt ;;
        prod <- Np.multiply
                  (slice signal (Some 0%Z) (Some (Z.of_nat (length mask)))) mask ;;
        Np.set_slice signal (Some 0%Z) (Some (Z.of_nat (length mask))) prod)
       = Ok (zipmul (firstn (Z.to_nat amt) signal) mask
               ++ skipn (Z.to_nat amt) signal).
Proof.
  intro Hamt.
  destruct (linspace_ok 0 1 amt) as (mask & Hm & Hlen & _); [lia |].
  exists mask. repeat split; trivial.
  rewrite Hm. cbn [bind]. rewrite Hlen.
  rewrite slice_prefix by lia.
  assert (Hf : length (firstn (Z.to_nat amt) signal) = length mask)
    by (rewrite length_firstn; lia).
  rewrite (multiply_same _ _ Hf). cbn [bind].
  apply set_slice_prefix; [lia |].
  rewrite (length_zipmul _ _ Hf). lia.
Qed.

(** The falling ramp: the last [amt] samples are multiplied by the mask. *)
Lemma ramp_down_ok (signal : list R) (amt : Z) :
  (1 <= amt <= Z.of_nat (length signal))%Z ->
  exists mask,
    Np.linspace 1 0 amt = Ok mask
    /\ length mask = Z.to_nat amt
    /\ (mask <- Np.linspace 1 0 amt ;;
        Np.imul_slice signal (Some (- Z.of_nat (length mask))%Z) None mask)
       = Ok (firstn (length signal - Z.to_nat amt) signal
               ++ zipmul (skipn (length signal - Z.to_nat amt) signal) mask).
Proof.
  intro Hamt.
  destruct (linspace_ok 1 0 amt) as (mask & Hm & Hlen & _); [lia |].
  exists mask. repeat split; trivial.
  rewrite Hm. cbn [bind]. rewrite Hlen.
  unfold Np.imul_slice.
  rewrite slice_suffix by lia.
  assert (Hf : length (skipn (length signal - Z.to_nat amt) signal) = length mask)
    by (rewrite length_skipn; lia).
  rewrite (multiply_same _ _ Hf). cbn [bind].
  rewrite (length_zipmul _ _ Hf), Nat.eqb_refl.
  apply set_slice_suffix; [lia |].
  rewrite (length_zipmul _ _ Hf). lia.
Qed.

Lemma first_ok (xs : list R) :
  xs <> [] -> Np.first xs = Ok (nth 0 xs 0).
Proof. destruct xs; [congruence | reflexivity]. Qed.

Lemma last_ok (xs : list R) :
  xs <> [] -> Np.last xs = Ok (List.last xs 0).
Proof. destruct xs; [congruence | reflexivity]. Qed.

Lemma length_pos_nonnil {A : Type} (xs : list A) :
  (0 < length xs)%nat -> xs <> [].
Proof. destruct xs; simpl; [lia | congruence]. Qed.

(** [smooth_edges] never changes the length and never fails within the
    range [1 <= amt <= len(signal)]. *)
Lemma smooth_edges_in_range (signal : list R) (amt : Z) :
  (1 <= amt <= Z.of_nat (length signal))%Z ->
  exists out, smooth_edges signal amt = Ok out /\ length out = length signal.
Proof.
  intro Hamt. unfold smooth_edges.
  destruct (Z.eqb_spec amt 0) as [-> | _]; [lia |].
  rewrite first_ok by (apply length_pos_nonnil; lia). cbn [bind].
  cbv zeta.
  assert (Hstep1 : exists s1,
    (if nonzero (nth 0 signal 0)
     then mask <- Np.linspace 0 1 amt ;;
          prod <- Np.multiply
                    (slice signal (Some 0%Z) (Some (Z.of_nat (length mask)))) mask ;;
          Np.set_slice signal (Some 0%Z) (Some (Z.of_nat (length mask))) prod
     else Ok signal) = Ok s1 /\ length s1 = length signal).
  { destruct (nonzero (nth 0 signal 0)).
    - destruct (ramp_up_ok signal amt Hamt) as (mask & _ & Hlen & ->).
      eexists; split; [reflexivity |].
      rewrite length_app, length_zipmul, length_firstn, length_skipn;
        [lia | rewrite length_firstn; lia].
    - now exists signal. }
  destruct Hstep1 as (s1 & -> & Hlen1). cbn [bind].
  rewrite last_ok by (apply length_pos_nonnil; lia). cbn [bind].
  destruct (nonzero (List.last s1 0)).
  - destruct (ramp_down_ok s1 amt) as (mask & _ & Hlen & ->); [lia |].
    cbn [bind]. eexists; split; [reflexivity |].
    rewrite length_app, length_zipmul, length_firstn, length_skipn;
      [lia | rewrite length_skipn; lia].
  - cbn [bind]. now exists s1.
Qed.

Lemma slice_prefix_clamped {A : Type} (xs : list A) (k : nat) :
  (length xs <= k)%nat ->
  slice xs (Some 0%Z) (Some (Z.of_nat k)) = xs.
Proof.
  intro Hk. unfold slice, slice_start, slice_stop, slice_bound.
  change (0 <? 0)%Z with false. cbv iota.
  destruct (Z.ltb_spec (Z.of_nat k) 0); [lia |].
  rewrite (Z.min_l 0) by lia. rewrite (Z.min_r (Z.of_nat k)) by lia.
  rewrite Z.sub_0_r, Nat2Z.id. apply firstn_all.
Qed.

Lemma slice_suffix_clamped {A : Type} (xs : list A) (k : nat) :
  (length xs <= k)%nat -> (1 <= k)%nat ->
  slice xs (Some (- Z.of_nat k)%Z) None = xs.
Proof.
  intros Hk Hk1. unfold slice, slice_start, slice_stop, slice_bound.
  destruct (Z.ltb_spec (- Z.of_nat k) 0); [| lia].
  rewrite Z.max_l by lia.
  rewrite Z.sub_0_r, Nat2Z.id. apply firstn_all.
Qed.

Lemma set_slice_prefix_clamped_fails (xs v : list R) (k : nat) :
  length xs = 1%nat -> (2 <= length v)%nat -> (1 <= k)%nat ->
  Np.set_slice xs (Some 0%Z) (Some (Z.of_nat k)) v = Raise ValueError.
Proof.
  intros Hx Hv Hk. unfold Np.set_slice, slice_start, slice_stop, slice_bound.
  change (0 <? 0)%Z with false. cbv iota.
  destruct (Z.ltb_spec (Z.of_nat k) 0); [lia |].
  rewrite (Z.min_l 0) by lia. rewrite (Z.min_r (Z.of_nat k)) by lia.
  rewrite Z.sub_0_r, Nat2Z.id, Hx.
  destruct (Nat.eqb_spec (length v) 1); [lia |]. reflexivity.
Qed.

Lemma multiply_mismatch (a b : list R) :
  length a <> length b -> length a <> 1%nat -> length b <> 1%nat ->
  Np.multiply a b = Raise ValueError.
Proof.
  intros H1 H2 H3. unfold Np.multiply.
  destruct (Nat.eqb_spec (length a) (length b)); [contradiction |].
  destruct (Nat.eqb_spec (length a) 1); [contradiction |].
  destruct (Nat.eqb_spec (length b) 1); [contradiction |]. reflexivity.
Qed.

(** A ramp longer than the signal: the rising ramp fails. *)
Lemma ramp_up_too_long (signal : list R) (amt : Z) :
  signal <> [] -> (Z.of_nat (length signal) < amt)%Z ->
  (mask <- Np.linspace 0 1 amt ;;
   prod <- Np.multiply
             (slice signal (Some 0%Z) (Some (Z.of_nat (length mask)))) mask ;;
   Np.set_slice signal (Some 0%Z) (Some (Z.of_nat (length mask))) prod)
  = Raise ValueError.
Proof.
  intros Hne Hamt.
  assert (Hn : (1 <= length signal)%nat) by (destruct signal; simpl; [congruence | lia]).
  destruct (linspace_ok 0 1 amt) as (mask & -> & Hlen & _); [lia |].
  cbn [bind]. rewrite slice_prefix_clamped by lia.
  destruct (Nat.eq_dec (length signal) 1) as [H1 | H1].
  - unfold Np.multiply.
    destruct (Nat.eqb_spec (length signal) (length mask)); [lia |].
    rewrite H1. cbn [Nat.eqb bind].
    apply set_slice_prefix_clamped_fails; [assumption | | lia].
    rewrite length_map. lia.
  - rewrite multiply_mismatch by lia. reflexivity.
Qed.

(** A ramp longer than a signal of two samples or more: the falling
    ramp fails. *)
Lemma ramp_down_too_long (signal : list R) (amt : Z) :
  (2 <= length signal)%nat -> (Z.of_nat (length signal) < amt)%Z ->
  (mask <- Np.linspace 1 0 amt ;;
   Np.imul_slice signal (Some (- Z.of_nat (length mask))%Z) None mask)
  = Raise ValueError.
Proof.
  intros Hn Hamt.
  destruct (linspace_ok 1 0 amt) as (mask & -> & Hlen & _); [lia |].
  cbn [bind]. unfold Np.imul_slice.
  rewrite slice_suffix_clamped by lia.
  rewrite multiply_mismatch by lia. reflexivity.
Qed.

(** C10: [smooth_edges] completes for [amt = 0] and for
    [1 <= amt <= len(signal)]; with [amt > 0] it fails on the empty
    signal at the read of the first sample, and with [amt > len(signal)]
    and a nonzero first or last sample the ramp product fails on the
    mismatched lengths. *)
Theorem smooth_edges_safety :
  (forall (signal : list R) (amt : Z),
      amt = 0%Z \/ (signal <> [] /\ (1 <= amt <= Z.of_nat (length signal))%Z) ->
      exists out, smooth_edges signal amt = Ok out)
  /\ (forall amt : Z, (0 < amt)%Z -> smooth_edges [] amt = Raise IndexError)
  /\ (forall (signal : list R) (amt : Z),
         signal <> [] ->
         (Z.of_nat (length signal) < amt)%Z ->
         nth 0 signal 0 <> 0 \/ List.last signal 0 <> 0 ->
         smooth_edges signal amt = Raise ValueError).
Proof.
  split; [| split].
  - intros signal amt [-> | [_ Hamt]].
    + now exists signal.
    + destruct (smooth_edges_in_range signal amt Hamt) as (out & Hout & _).
      now exists out.
  - intros amt Hamt. unfold smooth_edges.
    destruct (Z.eqb_spec amt 0); [lia | reflexivity].
  - intros signal amt Hne Hamt Hnz. unfold smooth_edges.
    destruct (Z.eqb_spec amt 0); [lia |].
    rewrite first_ok by assumption. cbn [bind]. cbv zeta.
    destruct (Req_dec_T (nth 0 signal 0) 0) as [Hz | Hnz0].
    + rewrite (nonzero_false _ Hz). cbn [bind].
      rewrite last_ok by assumption. cbn [bind].
      destruct Hnz as [Hnz | Hnz]; [contradiction |].
      rewrite (nonzero_true _ Hnz).
      assert (Hn : (2 <= length signal)%nat).
      { destruct signal as [| x [| y rest]]; simpl in *; try congruence; lia. }
      rewrite (ramp_down_too_long signal amt Hn Hamt). reflexivity.
    + rewrite (nonzero_true _ Hnz0).
      rewrite (ramp_up_too_long signal amt Hne Hamt). reflexivity.
Qed.

Lemma smooth_edges_safety_witness :
  (exists out, smooth_edges [1; 2; 3] 2 = Ok out)
  /\ smooth_edges [] 2 = Raise IndexError
  /\ smooth_edges [0; 1] 3 = Raise ValueError.
Proof.
  destruct smooth_edges_safety as (Hok & Hempty & Hlong).
  split; [| split].
  - apply Hok. right. split; [discriminate | simpl; lia].
  - apply Hempty. lia.
  - apply Hlong; [discriminate | simpl; lia |].
    right. simpl. lra.
Defined.

(** The result of [smooth_edges] when both ramps apply and do not overlap. *)
Lemma smooth_edges_both_ramps (signal : list R) (amt : Z) :
  nth 0 signal 0 <> 0 ->
  List.last signal 0 <> 0 ->
  (1 <= amt)%Z ->
  (2 * amt <= Z.of_nat (length signal))%Z ->
  exists up down,
    Np.linspace 0 1 amt = Ok up
    /\ Np.linspace 1 0 amt = Ok down
    /\ smooth_edges signal amt
       = Ok (zipmul (firstn (Z.to_nat amt) signal) up
               ++ firstn (length signal - 2 * Z.to_nat amt)
                    (skipn (Z.to_nat amt) signal)
               ++ zipmul (skipn (length signal - Z.to_nat amt) signal) down).
Proof.
  intros Hfirst Hlast Hamt Hlen.
  set (n := length signal) in *. set (a := Z.to_nat amt).
  assert (Ha : (1 <= a)%nat) by lia.
  assert (Han : (2 * a <= n)%nat) by lia.
  destruct (ramp_up_ok signal amt) as (up & Hup & Hlup & Hstep1); [lia |].
  fold a in Hlup, Hstep1.
  set (s1 := zipmul (firstn a signal) up ++ skipn a signal) in *.
  assert (Hz : length (zipmul (firstn a signal) up) = a).
  { rewrite length_zipmul; rewrite length_firstn; lia. }
  assert (Hlen1 : length s1 = n).
  { unfold s1. rewrite length_app, Hz, length_skipn. lia. }
  assert (Hlast1 : List.last s1 0 = List.last signal 0).
  { rewrite !last_nth, Hlen1. fold n. unfold s1.
    rewrite app_nth2 by lia. rewrite Hz, nth_skipn. f_equal. lia. }
  destruct (ramp_down_ok s1 amt) as (down & Hdown & Hldown & Hstep2); [lia |].
  fold a in Hldown, Hstep2. rewrite Hlen1 in Hstep2.
  exists up, down. repeat split; trivial.
  unfold smooth_edges.
  destruct (Z.eqb_spec amt 0); [lia |].
  rewrite first_ok by (apply length_pos_nonnil; fold n; lia). cbn [bind].
  rewrite (nonzero_true _ Hfirst). cbv zeta.
  rewrite Hstep1. cbn [bind].
  rewrite last_ok by (apply length_pos_nonnil; lia). cbn [bind].
  rewrite Hlast1, (nonzero_true _ Hlast), Hstep2. cbn [bind].
  f_equal. unfold s1.
  rewrite firstn_app, Hz, firstn_all2 by lia.
  rewrite skipn_app, Hz, (skipn_all2 (zipmul _ _)) by lia.
  rewrite skipn_skipn. cbn [app].
  replace (n - a - a)%nat with (n - 2 * a)%nat by lia.
  replace (n - 2 * a + a)%nat with (n - a)%nat by lia.
  now rewrite <- app_assoc.
Qed.

(** C8, as the code has it: with both end samples nonzero and
    [1 <= amt], [2 * amt <= len], the result has the length of the input,
    its first sample is 0 and every sample at an index in
    [amt, len - amt) is unchanged; its last sample is 0 when [amt >= 2],
    and is the input's last sample when [amt = 1] (the falling ramp of
    one sample is [1.0]). *)
Theorem smooth_edges_ramps_frame (signal : list R) (amt : Z) :
  nth 0 signal 0 <> 0 ->
  List.last signal 0 <> 0 ->
  (1 <= amt)%Z ->
  (2 * amt <= Z.of_nat (length signal))%Z ->
  exists out,
    smooth_edges signal amt = Ok out
    /\ length out = length signal
    /\ Np.first out = Ok 0
    /\ ((2 <= amt)%Z -> Np.last out = Ok 0)
    /\ (amt = 1%Z -> Np.last out = Ok (List.last signal 0))
    /\ (forall i : nat,
           (Z.to_nat amt <= i < length signal - Z.to_nat amt)%nat ->
           nth i out 0 = nth i signal 0).
Proof.
  intros Hfirst Hlast Hamt Hlen.
  destruct (smooth_edges_both_ramps signal amt Hfirst Hlast Hamt Hlen)
    as (up & down & Hup & Hdown & Hout).
  destruct (linspace_ok 0 1 amt) as (up' & Hup' & Hlup & Hup0 & _); [lia |].
  destruct (linspace_ok 1 0 amt) as (down' & Hdown' & Hldown & _ & Hdl & Hd1); [lia |].
  rewrite Hup in Hup'. injection Hup' as <-.
  rewrite Hdown in Hdown'. injection Hdown' as <-.
  set (n := length signal) in *. set (a := Z.to_nat amt) in *.
  assert (Ha : (1 <= a)%nat) by lia.
  assert (Han : (2 * a <= n)%nat) by lia.
  assert (Hz1 : length (zipmul (firstn a signal) up) = a).
  { rewrite length_zipmul; rewrite length_firstn; fold n; lia. }
  assert (Hz2 : length (zipmul (skipn (n - a) signal) down) = a).
  { rewrite length_zipmul; rewrite length_skipn; fold n; lia. }
  assert (Hmid : length (firstn (n - 2 * a) (skipn a signal)) = (n - 2 * a)%nat).
  { rewrite length_firstn, length_skipn. fold n. lia. }
  eexists. split; [exact Hout |].
  assert (Hlout : length (zipmul (firstn a signal) up
                            ++ firstn (n - 2 * a) (skipn a signal)
                            ++ zipmul (skipn (n - a) signal) down) = n).
  { rewrite !length_app, Hz1, Hz2, Hmid. lia. }
  assert (Hlastout :
    List.last (zipmul (firstn a signal) up
                 ++ firstn (n - 2 * a) (skipn a signal)
                 ++ zipmul (skipn (n - a) signal) down) 0
    = List.last signal 0 * List.last down 0).
  { rewrite (last_nth (_ ++ _)), Hlout.
    rewrite app_nth2 by lia. rewrite Hz1.
    rewrite app_nth2 by lia. rewrite Hmid.
    rewrite nth_zipmul by (rewrite length_skipn; fold n; lia).
    rewrite nth_skipn, !last_nth. fold n. rewrite Hldown.
    f_equal; f_equal; lia. }
  split; [exact Hlout |]. split; [| split; [| split]].
  - rewrite first_ok by (apply length_pos_nonnil; lia).
    rewrite app_nth1 by lia.
    rewrite nth_zipmul by (rewrite length_firstn; fold n; lia).
    rewrite Hup0 by lia. f_equal. lra.
  - intro H2. rewrite last_ok by (apply length_pos_nonnil; lia).
    rewrite Hlastout, Hdl by lia. f_equal. lra.
  - intro H1. rewrite last_ok by (apply length_pos_nonnil; lia).
    rewrite Hlastout, (Hd1 H1). simpl. f_equal. lra.
  - intros i Hi.
    rewrite app_nth2 by lia. rewrite Hz1.
    rewrite app_nth1 by lia.
    rewrite nth_firstn.
    destruct (Nat.ltb_spec (i - a) (n - 2 * a)); [| lia].
    rewrite nth_skipn. f_equal. lia.
Qed.

Lemma smooth_edges_ramps_frame_witness :
  exists out,
    smooth_edges [1; 2; 3; 4; 5] 2 = Ok out
    /\ length out = 5%nat
    /\ Np.first out = Ok 0
    /\ Np.last out = Ok 0
    /\ nth 2 out 0 = 3.
Proof.
  destruct (smooth_edges_ramps_frame [1; 2; 3; 4; 5] 2)
    as (out & Hout & Hlen & Hf & Hl & _ & Hmid).
  - simpl. lra.
  - simpl. lra.
  - lia.
  - simpl. lia.
  - exists out. repeat split; trivial.
    + apply Hl. lia.
    + apply (Hmid 2%nat). simpl. lia.
Defined.

(** C8, the ramp of one sample: on [[1.0, 1.0]] with
    [amt = 1] the last sample stays 1. *)
Lemma smooth_edges_one_sample_ramp_keeps_last :
  smooth_edges [1; 1] 1 = Ok [0; 1]
  /\ ~ (nth 0 [1; 1] 0 <> 0 ->
        List.last [1; 1] 0 <> 0 ->
        (1 <= 1)%Z ->
        (2 * 1 <= Z.of_nat (length [1; 1]))%Z ->
        exists out,
          smooth_edges [1; 1] 1 = Ok out
          /\ length out = length [1; 1]
          /\ Np.first out = Ok 0
          /\ Np.last out = Ok 0
          /\ (forall i : nat,
                 (Z.to_nat 1 <= i < length [1; 1] - Z.to_nat 1)%nat ->
                 nth i out 0 = nth i [1; 1] 0)).
Proof.
  assert (Heq : smooth_edges [1; 1] 1 = Ok [0; 1]).
  { destruct (smooth_edges_both_ramps [1; 1] 1) as (up & down & Hup & Hdown & ->);
      try (simpl; lra); try (simpl; lia).
    destruct (linspace_ok 0 1 1) as (up' & Hup' & _ & _ & _ & Hu1); [lia |].
    destruct (linspace_ok 1 0 1) as (down' & Hdown' & _ & _ & _ & Hd1); [lia |].
    rewrite Hup in Hup'. injection Hup' as <-.
    rewrite Hdown in Hdown'. injection Hdown' as <-.
    rewrite Hu1, Hd1 by reflexivity. unfold zipmul. simpl.
    f_equal. f_equal; [lra | f_equal; lra]. }
  split; [exact Heq |].
  intro H.
  destruct H as (out & Hout & _ & _ & Hl & _);
    try (simpl; lra); try (simpl; lia).
  rewrite Heq in Hout. injection Hout as <-.
  simpl in Hl. injection Hl as Hl. lra.
Qed.

(** ** IdealWaveformSynthesizer: [create_saw] *)

Import Synth.

Lemma length_fill (components : list FreqComponent) (cut_at dt : R)
  (count : nat) (time : R) :
  length (fill components cut_at dt count time) = count.
Proof.
  revert time. induction count as [| c IH]; intro time; simpl; auto.
Qed.

(** The running [time] at index [i] is [i] additions of [dt]. *)
Lemma nth_fill (components : list FreqComponent) (cut_at dt : R)
  (count : nat) (time : R) (i : nat) :
  (i < count)%nat ->
  nth i (fill components cut_at dt count time) 0
  = sample_at components cut_at (time + INR i * dt).
Proof.
  revert time i. induction count as [| c IH]; intros time i Hi; [lia |].
  destruct i as [| i].
  - simpl. f_equal. lra.
  - cbn [fill nth]. rewrite IH by lia. f_equal.
    rewrite S_INR. lra.
Qed.

(** Components at or above the cut-off leave the running sum alone. *)
Lemma fold_skipped (components : list FreqComponent) (cut_at time v : R) :
  (forall c, In c components -> cut_at <= freq c) ->
  fold_left
    (fun v c =>
       if Rle_dec cut_at (freq c) then v
       else v + amp c * (sin (TAU * freq c * time) / divisor c))
    components v = v.
Proof.
  revert v. induction components as [| c cs IH]; intros v Hall; [reflexivity |].
  cbn [fold_left].
  destruct (Rle_dec cut_at (freq c)) as [_ | Hn].
  - apply IH. intros c' Hc'. apply Hall. now right.
  - exfalso. apply Hn, Hall. now left.
Qed.

Lemma create_saw_total (sample_rate : R) (n : Z) (f0 : R) (harmonics : Z)
  (cut_at : option R) :
  sample_rate <> 0 -> (0 <= n)%Z ->
  exists out,
    create_saw sample_rate n f0 harmonics cut_at = Ok out
    /\ length out = Z.to_nat n.
Proof.
  intros Hsr Hn. unfold create_saw. cbv zeta.
  destruct (Req_dec_T sample_rate 0) as [| _]; [contradiction |].
  cbn [bind]. unfold Np.zeros.
  destruct (Z.ltb_spec n 0); [lia |]. cbn [bind].
  eexists; split; [reflexivity |].
  now rewrite length_fill, repeat_length.
Qed.

(** C3, as the code has it: [create_saw] validates nothing itself.  It
    fails only through the operations it calls: a zero sample rate is a
    division by zero, and a negative sample count is refused by
    [np.zeros]; otherwise a signal of [n] samples is returned, whatever
    the sign of the fundamental frequency and of the sample rate. *)
Theorem create_saw_errors (sample_rate : R) (n : Z) (f0 : R) (harmonics : Z)
  (cut_at : option R) :
  (sample_rate = 0 ->
   create_saw sample_rate n f0 harmonics cut_at = Raise ZeroDivisionError)
  /\ (sample_rate <> 0 -> (n < 0)%Z ->
      create_saw sample_rate n f0 harmonics cut_at = Raise ValueError)
  /\ (sample_rate <> 0 -> (0 <= n)%Z ->
      exists out,
        create_saw sample_rate n f0 harmonics cut_at = Ok out
        /\ length out = Z.to_nat n).
Proof.
  split; [| split].
  - intro Hsr. unfold create_saw. cbv zeta.
    destruct (Req_dec_T sample_rate 0); [reflexivity | contradiction].
  - intros Hsr Hn. unfold create_saw. cbv zeta.
    destruct (Req_dec_T sample_rate 0); [contradiction |].
    cbn [bind]. unfold Np.zeros.
    destruct (Z.ltb_spec n 0); [reflexivity | lia].
  - apply create_saw_total.
Qed.

Lemma create_saw_errors_witness :
  create_saw 0 4 440 1 None = Raise ZeroDivisionError
  /\ create_saw 44100 (-1) 440 1 None = Raise ValueError
  /\ exists out, create_saw (-44100) 4 (-440) 1 None = Ok out
                 /\ length out = 4%nat.
Proof.
  split; [| split].
  - apply (proj1 (create_saw_errors 0 4 440 1 None)). reflexivity.
  - apply (proj1 (proj2 (create_saw_errors 44100 (-1) 440 1 None))); [lra | lia].
  - apply (proj2 (proj2 (create_saw_errors (-44100) 4 (-440) 1 None))); [lra | lia].
Defined.

(** C3, a zero fundamental frequency: it is accepted and
    gives the silent signal. *)
Lemma create_saw_accepts_zero_frequency :
  create_saw 44100 2 0 1 None = Ok [0; 0]
  /\ ~ (0 <= 0 \/ 44100 <= 0 ->
        exists e, create_saw 44100 2 0 1 None = Raise e).
Proof.
  assert (Heq : create_saw 44100 2 0 1 None = Ok [0; 0]).
  { unfold create_saw. cbv zeta.
    destruct (Req_dec_T 44100 0) as [H | _]; [lra |].
    cbn [bind]. unfold Np.zeros. simpl.
    unfold sample_at. simpl.
    destruct (Rle_dec (44100 / 2) (1 * 0)) as [H | _]; [lra |].
    f_equal.
    replace (TAU * (1 * 0) * 0) with 0 by lra.
    replace (TAU * (1 * 0) * (0 + 1 / 44100)) with 0 by lra.
    rewrite sin_0. unfold get_amp. simpl.
    f_equal; [lra | f_equal; lra]. }
  split; [exact Heq |].
  intro H. destruct H as [e He]; [left; lra |].
  rewrite Heq in He. discriminate.
Qed.

Lemma range_from_one (harmonics : Z) :
  (1 <= harmonics)%Z ->
  range 1 (harmonics + 1)
  = 1%Z :: map (fun k => (1 + Z.of_nat k)%Z)
               (seq 1 (Z.to_nat harmonics - 1)).
Proof.
  intro H. unfold range.
  replace (Z.to_nat (harmonics + 1 - 1)) with (S (Z.to_nat harmonics - 1)) by lia.
  reflexivity.
Qed.

(** With the cut-off at one and a half times the fundamental, the sum at
    any time is the fundamental alone: every harmonic from the second on
    is at or above the cut-off and is skipped. *)
Lemma sample_at_fundamental_only (f0 time : R) (harmonics : Z) :
  0 < f0 -> (1 <= harmonics)%Z ->
  sample_at
    (map (fun i => {| freq := IZR i * f0; amp := get_amp i; divisor := IZR i |})
         (range 1 (harmonics + 1)))
    (15 / 10 * f0) time
  = sin (TAU * f0 * time).
Proof.
  intros Hf0 Hh. rewrite range_from_one by assumption.
  unfold sample_at. cbn [map fold_left freq amp divisor].
  destruct (Rle_dec (15 / 10 * f0) (1 * f0)) as [Hle | _]; [lra |].
  rewrite fold_skipped.
  - unfold get_amp. cbn. replace (TAU * (1 * f0) * time) with (TAU * f0 * time) by lra.
    lra.
  - intros c Hc. apply in_map_iff in Hc. destruct Hc as (i & <- & Hi).
    apply in_map_iff in Hi. destruct Hi as (k & <- & Hk).
    apply in_seq in Hk. cbn [freq].
    assert (H2 : 2 <= IZR (1 + Z.of_nat k)) by (apply IZR_le; lia).
    nra.
Qed.

(** C7: with a positive fundamental, a cut-off of 1.5 times the
    fundamental and at least one harmonic, [create_saw] returns the
    [n] samples [sin(2 pi f0 i / sample_rate)]: the harmonics from the
    second on lie at or above the cut-off and do not contribute. *)
Theorem create_saw_cutoff_fundamental_only
  (sample_rate : R) (n : Z) (f0 : R) (harmonics : Z) :
  sample_rate <> 0 -> 0 < f0 -> (0 <= n)%Z -> (1 <= harmonics)%Z ->
  (forall h : Z, (2 <= h <= harmonics)%Z -> 15 / 10 * f0 <= IZR h * f0)
  /\ exists out,
      create_saw sample_rate n f0 harmonics (Some (15 / 10 * f0)) = Ok out
      /\ length out = Z.to_nat n
      /\ forall i : nat,
          (i < Z.to_nat n)%nat ->
          nth i out 0 = sin (2 * PI * f0 * INR i / sample_rate).
Proof.
  intros Hsr Hf0 Hn Hh. split.
  - intros h [Hh2 _]. assert (2 <= IZR h) by (apply IZR_le; lia). nra.
  - unfold create_saw. cbv zeta.
    destruct (Req_dec_T sample_rate 0) as [| _]; [contradiction |].
    cbn [bind]. unfold Np.zeros.
    destruct (Z.ltb_spec n 0); [lia |]. cbn [bind].
    rewrite nonzero_true by lra.
    eexists. split; [reflexivity |].
    rewrite length_fill, repeat_length. split; [reflexivity |].
    intros i Hi. rewrite nth_fill by assumption.
    rewrite sample_at_fundamental_only by assumption.
    f_equal. unfold TAU. field. assumption.
Qed.

Lemma create_saw_cutoff_fundamental_only_witness :
  exists out,
    create_saw 44100 3 440 8 (Some (15 / 10 * 440)) = Ok out
    /\ length out = 3%nat
    /\ nth 2 out 0 = sin (2 * PI * 440 * INR 2 / 44100).
Proof.
  destruct (create_saw_cutoff_fundamental_only 44100 3 440 8)
    as (_ & out & Hout & Hlen & Hnth); try lra; try lia.
  exists out. repeat split; trivial.
  apply Hnth. simpl. lia.
Defined.

(** ** SweepComparator: [heatmap] and [plot_waves] *)

Import Analyze.

Lemma bindM_ok {A B : Type} (m : M A) (k : A -> M B) tr b tr' :
  bindM m k tr = (Ok b, tr') ->
  exists a tr1, m tr = (Ok a, tr1) /\ k a tr1 = (Ok b, tr').
Proof.
  unfold bindM. destruct (m tr) as [[a | e] tr1]; intro H.
  - now exists a, tr1.
  - discriminate.
Qed.

Lemma call_ok {A : Type} (c : engine_call) (r : result A) tr a tr' :
  call c r tr = (Ok a, tr') -> r = Ok a /\ tr' = tr ++ [c].
Proof. unfold call. intro H. injection H as -> <-. now split. Qed.

Lemma lift_ok {A : Type} (r : result A) tr a tr' :
  lift r tr = (Ok a, tr') -> r = Ok a /\ tr' = tr.
Proof. unfold lift. intro H. injection H as -> <-. now split. Qed.

Lemma retM_ok {A : Type} (x : A) tr a tr' :
  retM x tr = (Ok a, tr') -> x = a /\ tr' = tr.
Proof. unfold retM. intro H. injection H as -> <-. now split. Qed.

(** Decomposition of a successful run into its successive steps. *)
Ltac run_ok H :=
  repeat match type of H with
  | bindM _ _ _ = (Ok _, _) =>
      let a := fresh "a" in let tr := fresh "tr" in
      let H1 := fresh "Hstep" in
      apply bindM_ok in H; destruct H as (a & tr & H1 & H);
      first [ apply call_ok in H1; destruct H1 as [H1 ->]
            | apply lift_ok in H1; destruct H1 as [H1 ->]
            | idtac ]
  | retM _ _ = (Ok _, _) => apply retM_ok in H; destruct H as [H ->]
  end.

(** C5: for a shape that, lower-cased and stripped, is none of [sine],
    [softsaw], [hardsaw], [heatmap] raises [ValueError] without any call
    to the engine and returns no matrix. *)
Theorem heatmap_rejects_unknown_shape (E : Engine) (shape : string)
  (length_sec : R) (note_start note_end smooth_samples : Z)
  (color_map : string) (tr : list engine_call) :
  strip (lower shape) <> "sine"%string ->
  strip (lower shape) <> "softsaw"%string ->
  strip (lower shape) <> "hardsaw"%string ->
  heatmap E shape length_sec note_start note_end smooth_samples color_map tr
  = (Raise ValueError, tr).
Proof.
  intros H1 H2 H3.
  unfold heatmap, heatmap_spectra, harmonics_of, bindM, lift. cbv zeta.
  destruct (String.eqb_spec (strip (lower shape)) "sine"); [contradiction |].
  destruct (String.eqb_spec (strip (lower shape)) "softsaw"); [contradiction |].
  destruct (String.eqb_spec (strip (lower shape)) "hardsaw"); [contradiction |].
  reflexivity.
Qed.

Lemma heatmap_rejects_unknown_shape_witness :
  heatmap silent_engine "triangle" (4 / 10) 30 32 500 "viridis" []
  = (Raise ValueError, []).
Proof.
  apply heatmap_rejects_unknown_shape;
    vm_compute; discriminate.
Defined.

Example strip_lower_example :
  strip (lower "  HardSaw ") = "hardsaw"%string.
Proof. reflexivity. Qed.

Example eparam_path_example :
  Interface.eparam_path ["Osc1"; "Shape"]%string
  = ("{" ++ Interface.dquote ++ "Osc1" ++ Interface.dquote ++ ": {"
       ++ Interface.dquote ++ "Shape" ++ Interface.dquote ++ ": null}}")%string.
Proof. reflexivity. Qed.

(** *** The calls a computation can make *)

Section Emits.

Variable P : engine_call -> Prop.

Lemma emits_retM {A : Type} (a : A) : emits P (retM a).
Proof. intro tr. exists []. split; [now rewrite app_nil_r | constructor]. Qed.

Lemma emits_lift {A : Type} (r : result A) : emits P (lift r).
Proof. intro tr. exists []. split; [now rewrite app_nil_r | constructor]. Qed.

Lemma emits_call {A : Type} (c : engine_call) (r : result A) :
  P c -> emits P (call c r).
Proof. intros Hc tr. exists [c]. split; [reflexivity | now constructor]. Qed.

Lemma emits_bindM {A B : Type} (m : M A) (k : A -> M B) :
  emits P m -> (forall a, emits P (k a)) -> emits P (bindM m k).
Proof.
  intros Hm Hk tr. unfold bindM.
  destruct (Hm tr) as (ext1 & H1 & HP1).
  destruct (m tr) as [[a | e] tr1]; simpl in H1; subst tr1.
  - destruct (Hk a (tr ++ ext1)) as (ext2 & H2 & HP2).
    exists (ext1 ++ ext2). split.
    + now rewrite H2, app_assoc.
    + apply Forall_app. now split.
  - exists ext1. now split.
Qed.

End Emits.

Ltac emits_steps known :=
  repeat first
    [ apply emits_retM
    | apply emits_lift
    | known
    | apply emits_call; simpl; tauto
    | apply emits_bindM; [| intro ] ].

Lemma initialize_synth_emits (E : Engine) (s : synth E) (shape : string) :
  emits (fun c => ~ is_note_off c) (initialize_synth E s shape).
Proof.
  unfold initialize_synth. cbv zeta. emits_steps fail.
Qed.

(** C6, single-note mode: whatever the engine and the arguments,
    [plot_waves] never calls [note_off]; a successful run ends its calls
    to the engine with [note_on] and [render]. *)
Theorem plot_waves_omits_note_off (E : Engine) (time_sec : R) (note : Z)
  (shape : string) (smooth_samples chunk_size : Z)
  (cut_start cut_end : option Z) :
  (forall n : Z,
      ~ In (NoteOffCall n)
           (snd (plot_waves E time_sec note shape smooth_samples chunk_size
                            cut_start cut_end [])))
  /\ (forall w tr,
         plot_waves E time_sec note shape smooth_samples chunk_size
                    cut_start cut_end [] = (Ok w, tr) ->
         exists setup,
           tr = setup ++ [NoteOnCall note;
                          RenderCall chunk_size
                                     (Py.int (time_sec * IZR SAMPLE_RATE)) shape]).
Proof.
  split.
  - intros n Hin.
    assert (Hem : emits (fun c => ~ is_note_off c)
                    (plot_waves E time_sec note shape smooth_samples chunk_size
                                cut_start cut_end)).
    { unfold plot_waves. cbv zeta.
      emits_steps ltac:(apply initialize_synth_emits). }
    destruct (Hem []) as (ext & Hext & HP).
    rewrite Hext in Hin. simpl in Hin.
    rewrite Forall_forall in HP. apply (HP _ Hin). exact I.
  - intros w tr H. unfold plot_waves in H. cbv zeta in H.
    apply bindM_ok in H. destruct H as (freq & trf & Hfreq & H).
    apply lift_ok in Hfreq. destruct Hfreq as [_ ->].
    apply bindM_ok in H. destruct H as (ts & tr0 & Hts & H).
    apply lift_ok in Hts. destruct Hts as [_ ->].
    apply bindM_ok in H. destruct H as (s0 & tr1 & _ & H).
    apply bindM_ok in H. destruct H as (s1 & tr2 & _ & H).
    apply bindM_ok in H. destruct H as (s2 & tr3 & Hon & H).
    apply call_ok in Hon. destruct Hon as [_ ->].
    apply bindM_ok in H. destruct H as (lrs & tr4 & Hr & H).
    apply call_ok in Hr. destruct Hr as [_ ->].
    run_ok H. exists tr2. now rewrite <- app_assoc.
Qed.

(** *** Totality of the analysis stages *)

Lemma py_int_floor (r : R) (z : Z) :
  0 <= r -> IZR z <= r < IZR z + 1 -> Py.int r = z.
Proof.
  intros H0 Hz. unfold Py.int.
  destruct (Rle_dec 0 r) as [_ | Hn]; [| contradiction].
  symmetry. apply Int_part_spec. lra.
Qed.

Lemma fft_total (signal : list R) (sample_rate : R) :
  signal <> [] -> sample_rate <> 0 ->
  exists xf y_db,
    fft signal sample_rate = Ok (xf, y_db)
    /\ length y_db = (length signal / 2 + 1)%nat.
Proof.
  intros Hne Hsr. unfold fft.
  destruct (Req_dec_T sample_rate 0) as [| _]; [contradiction |].
  cbn [bind]. cbv zeta.
  unfold Np.rfft. destruct signal as [| x rest] eqn:Hsig; [congruence |].
  rewrite <- Hsig. cbn [bind].
  unfold Np.rfftfreq.
  destruct (Req_dec_T (IZR (Z.of_nat (length signal)) * (1 / sample_rate)) 0)
    as [Hz | _].
  { exfalso. apply Rmult_integral in Hz. destruct Hz as [Hz | Hz].
    - apply eq_IZR_R0 in Hz. subst signal. simpl in Hz. lia.
    - unfold Rdiv in Hz. rewrite Rmult_1_l in Hz.
      now apply Rinv_neq_0_compat in Hz. }
  cbn [bind].
  replace (length signal / 2 + 1)%nat with (S (length signal / 2)) by lia.
  rewrite <- cons_seq. cbn [map Np.max bind].
  do 2 eexists. split; [reflexivity |].
  cbn [length]. now rewrite !length_map, length_seq.
Qed.

Lemma smooth_edges_zero (signal : list R) : smooth_edges signal 0 = Ok signal.
Proof. reflexivity. Qed.

Lemma plot_waves_omits_note_off_witness :
  exists w setup,
    plot_waves silent_engine (1 / 32768) 69 "sine" 0 1024 None None []
    = (Ok w, setup ++ [NoteOnCall 69; RenderCall 1024 1 "sine"]).
Proof.
  assert (Hint : Py.int (1 / 32768 * IZR SAMPLE_RATE) = 1%Z).
  { apply py_int_floor; unfold SAMPLE_RATE; simpl; lra. }
  assert (Hrun : exists w tr,
    plot_waves silent_engine (1 / 32768) 69 "sine" 0 1024 None None []
    = (Ok w, tr)).
  { unfold plot_waves. cbv zeta. rewrite Hint, freq_for_A4.
    destruct (linspace_ok 0 (1 / 32768) 1) as (ts & Hts & _); [lia |].
    rewrite Hts.
    unfold initialize_synth, shape_float. cbv zeta.
    replace (strip (lower "sine")) with "sine"%string by reflexivity.
    cbn [String.eqb Ascii.eqb Bool.eqb].
    cbn [bindM lift call retM silent_engine core_wrapper update_param
         note_on render note_off fst snd].
    rewrite !smooth_edges_zero.
    destruct (fft_total (slice (repeat 0 (Z.to_nat 1)) (Some 0%Z) (Some 1%Z))
                        (IZR SAMPLE_RATE)) as (xf & y_db & Hfft & _).
    { discriminate. }
    { unfold SAMPLE_RATE. lra. }
    rewrite Hfft. do 2 eexists. reflexivity. }
  destruct Hrun as (w & tr & Hrun).
  destruct (proj2 (plot_waves_omits_note_off silent_engine (1 / 32768) 69
                     "sine" 0 1024 None None) w tr Hrun) as (setup & Htr).
  exists w, setup. rewrite Hrun, Htr, Hint. reflexivity.
Defined.

(** The nine parameter updates of [initialize_synth]. *)
Lemma initialize_synth_trace (E : Engine) (s s' : synth E) (shape : string)
  (tr tr' : list engine_call) :
  initialize_synth E s shape tr = (Ok s', tr') ->
  exists setup,
    tr' = tr ++ setup
    /\ length setup = 9%nat
    /\ Forall (fun c => exists p v, c = UpdateParamCall p v) setup.
Proof.
  intro H. unfold initialize_synth in H. cbv zeta in H.
  run_ok H. subst.
  eexists. split.
  - repeat rewrite <- app_assoc. reflexivity.
  - split; [reflexivity |].
    repeat constructor; eexists; eexists; reflexivity.
Qed.

(** One successful iteration of the sweep: the engine sees the complete
    lifecycle, and both columns are the spectrum of the smoothed ideal
    signal. *)
Lemma heatmap_note_ok (E : Engine) (shape : string) (length_sec : R)
  (samples harmonics smooth_samples chunk_size note : Z)
  (tr tr' : list engine_call) (cols : list Np.cvalue * list Np.cvalue) :
  heatmap_note E shape length_sec samples harmonics smooth_samples chunk_size
               note tr = (Ok cols, tr') ->
  (exists setup,
      tr' = tr ++ [CoreWrapperCall SAMPLE_RATE] ++ setup
               ++ [NoteOnCall note; RenderCall chunk_size samples shape;
                   NoteOffCall note]
      /\ Forall (fun c => exists p v, c = UpdateParamCall p v) setup)
  /\ fst cols = snd cols
  /\ exists freq signal signal_smooth xf,
      freq_for note = Ok freq
      /\ create_saw (IZR SAMPLE_RATE) samples freq harmonics None = Ok signal
      /\ smooth_edges signal smooth_samples = Ok signal_smooth
      /\ fft signal_smooth (IZR SAMPLE_RATE) = Ok (xf, snd cols).
Proof.
  intro H. unfold heatmap_note in H. cbv zeta in H.
  run_ok H.
  match goal with
  | Hi : initialize_synth _ _ _ _ = _ |- _ =>
      apply initialize_synth_trace in Hi; destruct Hi as (setup & -> & _ & Hset)
  end.
  subst cols. cbn [fst snd].
  repeat match goal with
  | H1 : ?x = Ok ?a, H2 : ?x = Ok ?b |- _ =>
      rewrite H1 in H2; injection H2 as <-
  end.
  split; [| split].
  - exists setup. split; [| assumption].
    repeat rewrite <- app_assoc. reflexivity.
  - reflexivity.
  - match goal with
    | Hq : freq_for _ = Ok ?fr,
      Hc : create_saw _ _ ?fr _ _ = Ok ?sig,
      Hs : smooth_edges ?sig _ = Ok ?sm,
      Hf : fft ?sm _ = Ok ?p |- _ =>
        exists fr, sig, sm, (fst p); repeat split; trivial;
        rewrite Hf; destruct p; reflexivity
    end.
Qed.

(** The loop appends, for each note in order, the two columns of its
    iteration. *)
Lemma heatmap_loop_ok (body : Z -> M (list Np.cvalue * list Np.cvalue))
  (Q : Z -> list Np.cvalue * list Np.cvalue -> Prop) :
  (forall note tr cols tr', body note tr = (Ok cols, tr') -> Q note cols) ->
  forall notes spectra_ideal spectra tr res tr',
    heatmap_loop body notes spectra_ideal spectra tr = (Ok res, tr') ->
    exists cols,
      Forall2 Q notes cols
      /\ fst res = spectra_ideal ++ map fst cols
      /\ snd res = spectra ++ map snd cols.
Proof.
  intros Hbody notes.
  induction notes as [| note rest IH]; intros si sp tr res tr' H.
  - cbn [heatmap_loop] in H. apply retM_ok in H. destruct H as [<- _].
    exists []. cbn. rewrite !app_nil_r. repeat split. constructor.
  - cbn [heatmap_loop] in H.
    apply bindM_ok in H. destruct H as (c & tr1 & Hc & H).
    apply IH in H. destruct H as (cols & HQ & Hi & Hs).
    exists (c :: cols). split; [| split].
    + constructor; [eapply Hbody; eassumption | assumption].
    + rewrite Hi, <- app_assoc. reflexivity.
    + rewrite Hs, <- app_assoc. reflexivity.
Qed.

Lemma Forall2_nth_error {A B : Type} (Q : A -> B -> Prop) (xs : list A)
  (ys : list B) :
  Forall2 Q xs ys ->
  forall k x, nth_error xs k = Some x ->
              exists y, nth_error ys k = Some y /\ Q x y.
Proof.
  induction 1 as [| x0 y0 xs ys HQ _ IH]; intros k x Hk.
  - destruct k; discriminate.
  - destruct k as [| k]; cbn in *.
    + injection Hk as <-. now exists y0.
    + now apply IH.
Qed.

(** C1, what the code does: in every successful sweep the rendered
    matrix is the ideal matrix.  The column appended to [spectra] for a
    note is the spectrum of the smoothed ideal signal [create_saw] built
    for that note; the left channel returned by [render] is not used. *)
Theorem heatmap_rendered_column_from_ideal (E : Engine) (shape : string)
  (length_sec : R) (note_start note_end smooth_samples : Z)
  (color_map : string) (tr tr' : list engine_call)
  (spectra_ideal spectra : list (list Np.cvalue)) :
  heatmap E shape length_sec note_start note_end smooth_samples color_map tr
  = (Ok (spectra_ideal, spectra), tr') ->
  spectra = spectra_ideal
  /\ exists harmonics columns,
      harmonics_of (strip (lower shape)) = Ok harmonics
      /\ spectra = transpose columns
      /\ length columns = length (range note_start note_end)
      /\ forall k note,
          nth_error (range note_start note_end) k = Some note ->
          exists freq signal signal_smooth xf column,
            freq_for note = Ok freq
            /\ create_saw (IZR SAMPLE_RATE)
                          (Py.int (length_sec * IZR SAMPLE_RATE))
                          freq harmonics None = Ok signal
            /\ smooth_edges signal smooth_samples = Ok signal_smooth
            /\ fft signal_smooth (IZR SAMPLE_RATE) = Ok (xf, column)
            /\ nth_error columns k = Some column.
Proof.
  intro H. unfold heatmap in H.
  apply bindM_ok in H. destruct H as (cols & tr1 & Hsp & H).
  apply retM_ok in H. destruct H as [H _]. injection H as <- <-.
  unfold heatmap_spectra in Hsp. cbv zeta in Hsp.
  apply bindM_ok in Hsp. destruct Hsp as (harmonics & tr0 & Hh & Hloop).
  apply lift_ok in Hh. destruct Hh as [Hh ->].
  eapply heatmap_loop_ok in Hloop;
    [| intros note t c t' Hb; exact (proj2 (heatmap_note_ok _ _ _ _ _ _ _ _ _ _ _ Hb))].
  destruct Hloop as (pairs & HQ & Hi & Hs).
  cbn [app] in Hi, Hs.
  assert (Hsame : map fst pairs = map snd pairs).
  { clear Hi Hs. induction HQ as [| n p ns ps [Hp _] _ IH]; [reflexivity |].
    cbn [map]. now rewrite Hp, IH. }
  split.
  - now rewrite Hi, Hs, Hsame.
  - exists harmonics, (map snd pairs). split; [assumption |].
    split; [now rewrite Hs |].
    split.
    + rewrite length_map. symmetry. eapply Forall2_length; eassumption.
    + intros k note Hk.
      destruct (Forall2_nth_error _ _ _ HQ k note Hk)
        as (p & Hp & _ & freq & signal & sm & xf & Hq & Hc & Hsm & Hf).
      exists freq, signal, sm, xf, (snd p). repeat split; trivial.
      now rewrite nth_error_map, Hp.
Qed.

(** ** SpectralAnalyzer: [fft] *)

Lemma fold_Rmax_upper (l : list R) (a : R) :
  a <= fold_left Rmax l a /\ forall x, In x l -> x <= fold_left Rmax l a.
Proof.
  revert a. induction l as [| y l IH]; intro a; cbn [fold_left].
  - split; [lra | intros x []].
  - destruct (IH (Rmax a y)) as [H1 H2]. split.
    + pose proof (Rmax_l a y). lra.
    + intros x [<- | Hx]; [| now apply H2].
      pose proof (Rmax_r a y). lra.
Qed.

Lemma fold_Rmax_attained (l : list R) (a : R) :
  In (fold_left Rmax l a) (a :: l).
Proof.
  revert a. induction l as [| y l IH]; intro a; cbn [fold_left].
  - now left.
  - destruct (IH (Rmax a y)) as [H | H].
    + unfold Rmax in H at 1. destruct (Rle_dec a y).
      * right. left. exact H.
      * left. exact H.
    + right. right. exact H.
Qed.

Lemma np_max_spec (xs : list R) (m : R) :
  Np.max xs = Ok m -> In m xs /\ forall x, In x xs -> x <= m.
Proof.
  destruct xs as [| a l]; [discriminate |].
  cbn [Np.max]. intro H. injection H as <-. split.
  - apply fold_Rmax_attained.
  - destruct (fold_Rmax_upper l a) as [H1 H2].
    intros x [Hx | Hx]; [subst x; exact H1 | exact (H2 x Hx)].
Qed.

Lemma cabs_nonneg (z : Np.complex) : 0 <= Np.cabs z.
Proof. apply sqrt_pos. Qed.

Lemma cabs_zero_iff (z : Np.complex) : Np.cabs z = 0 <-> z = (0, 0).
Proof.
  destruct z as [re im]. unfold Np.cabs. cbn [fst snd]. split.
  - intro H. apply sqrt_eq_0 in H; [| nra].
    assert (re = 0) by nra. assert (im = 0) by nra. now subst.
  - intro H. injection H as -> ->.
    replace (0 * 0 + 0 * 0) with 0 by lra. apply sqrt_0.
Qed.

Lemma cabs_scaled (re im p : R) :
  0 < p -> Np.cabs (re / p, im / p) = Np.cabs (re, im) / p.
Proof.
  intro Hp. unfold Np.cabs. cbn [fst snd].
  replace (re / p * (re / p) + im / p * (im / p))
    with ((re * re + im * im) / (p * p)) by (field; lra).
  rewrite sqrt_div_alt by nra.
  now rewrite sqrt_square by lra.
Qed.

(** One output value of [fft] for a bin [z] and a positive peak: the
    complex logarithm of [z / peak], its real part being the dB magnitude
    and its imaginary part the scaled argument of the bin. *)
Lemma db_value_finite (z : Np.complex) (peak : R) :
  0 < peak -> z <> (0, 0) ->
  Np.scale 20 (Np.log10 (Np.cdiv z peak))
  = Np.Finite (20 * (ln (Np.cabs z / peak) / ln 10))
              (20 * (Np.atan2 (snd z / peak) (fst z / peak) / ln 10)).
Proof.
  intros Hp Hz. unfold Np.cdiv.
  destruct (Req_dec_T peak 0) as [| _]; [lra |].
  cbn [Np.log10]. destruct z as [re im]. cbn [fst snd].
  rewrite cabs_scaled by assumption.
  destruct (Req_dec_T (Np.cabs (re, im) / peak) 0) as [H0 | _].
  - exfalso. apply Hz, cabs_zero_iff.
    apply Rmult_integral in H0. destruct H0 as [H0 | H0]; [assumption |].
    apply Rinv_neq_0_compat in H0; [contradiction | lra].
  - reflexivity.
Qed.

Lemma db_value_zero_bin (peak : R) :
  0 < peak -> Np.scale 20 (Np.log10 (Np.cdiv (0, 0) peak)) = Np.Infinite.
Proof.
  intro Hp. unfold Np.cdiv.
  destruct (Req_dec_T peak 0) as [| _]; [lra |].
  cbn [Np.log10 fst snd].
  destruct (Req_dec_T (Np.cabs (0 / peak, 0 / peak)) 0) as [_ | Hn];
    [reflexivity |].
  exfalso. apply Hn, cabs_zero_iff. f_equal; field; lra.
Qed.

Lemma db_value_zero_peak :
  Np.scale 20 (Np.log10 (Np.cdiv (0, 0) 0)) = Np.NotANumber.
Proof.
  unfold Np.cdiv. cbn [fst snd].
  destruct (Req_dec_T 0 0) as [_ | Hn]; [reflexivity | contradiction].
Qed.

(** The shape of the result of [fft]: one value per bin [0 .. n/2], each
    the bin divided by the peak modulus, through [log10], times 20. *)
Lemma fft_unfold (signal : list R) (sample_rate : R) :
  signal <> [] -> sample_rate <> 0 ->
  exists xf peak,
    let yf := map (Np.dft_bin signal) (seq 0 (length signal / 2 + 1)) in
    fft signal sample_rate
    = Ok (xf, map (fun z => Np.scale 20 (Np.log10 (Np.cdiv z peak))) yf)
    /\ Np.max (map Np.cabs yf) = Ok peak.
Proof.
  intros Hne Hsr. unfold fft.
  destruct (Req_dec_T sample_rate 0) as [| _]; [contradiction |].
  cbn [bind]. cbv zeta.
  unfold Np.rfft. destruct signal as [| x rest] eqn:Hsig; [congruence |].
  rewrite <- Hsig. cbn [bind].
  unfold Np.rfftfreq.
  destruct (Req_dec_T (IZR (Z.of_nat (length signal)) * (1 / sample_rate)) 0)
    as [Hz | _].
  { exfalso. apply Rmult_integral in Hz. destruct Hz as [Hz | Hz].
    - apply eq_IZR_R0 in Hz. subst signal. simpl in Hz. lia.
    - unfold Rdiv in Hz. rewrite Rmult_1_l in Hz.
      now apply Rinv_neq_0_compat in Hz. }
  cbn [bind].
  destruct (Np.max (map Np.cabs
              (map (Np.dft_bin signal) (seq 0 (length signal / 2 + 1)))))
    as [peak | e] eqn:Hmax.
  - cbn [bind]. do 2 eexists. split; reflexivity.
  - exfalso. revert Hmax.
    replace (length signal / 2 + 1)%nat with (S (length signal / 2)) by lia.
    rewrite <- cons_seq. cbn [map Np.max]. discriminate.
Qed.

Lemma ln_10_pos : 0 < ln 10.
Proof. rewrite <- ln_1. apply ln_increasing; lra. Qed.

Lemma ln_unit_interval (x : R) : 0 < x <= 1 -> ln x <= 0.
Proof.
  intros [H0 [H1 | ->]].
  - rewrite <- ln_1. left. now apply ln_increasing.
  - rewrite ln_1. lra.
Qed.

(** What [fft] computes for a bin: with [Y] the one-sided transform and
    [peak] the largest modulus, a nonzero bin [Y[k]] gets the complex
    value whose real part is [20 log10(|Y[k]| / peak)], at most 0, and
    whose imaginary part is [20 arg(Y[k]) / ln 10]. *)
Lemma fft_bin_value (signal : list R) (sample_rate : R) :
  signal <> [] -> sample_rate <> 0 ->
  exists xf y_db peak,
    fft signal sample_rate = Ok (xf, y_db)
    /\ length y_db = (length signal / 2 + 1)%nat
    /\ (exists j, (j <= length signal / 2)%nat
                  /\ Np.cabs (Np.dft_bin signal j) = peak)
    /\ (forall k, (k <= length signal / 2)%nat ->
                  Np.cabs (Np.dft_bin signal k) <= peak)
    /\ forall k,
        (k <= length signal / 2)%nat ->
        Np.dft_bin signal k <> (0, 0) ->
        let z := Np.dft_bin signal k in
        nth k y_db Np.NotANumber
        = Np.Finite (20 * (ln (Np.cabs z / peak) / ln 10))
                    (20 * (Np.atan2 (snd z / peak) (fst z / peak) / ln 10))
        /\ 20 * (ln (Np.cabs z / peak) / ln 10) <= 0.
Proof.
  intros Hne Hsr.
  destruct (fft_unfold signal sample_rate Hne Hsr) as (xf & peak & Hfft & Hmax).
  cbv zeta in Hfft, Hmax.
  set (bins := (length signal / 2 + 1)%nat) in *.
  apply np_max_spec in Hmax. destruct Hmax as [Hin Hle].
  assert (Hbound : forall k, (k <= length signal / 2)%nat ->
                             Np.cabs (Np.dft_bin signal k) <= peak).
  { intros k Hk. apply Hle. apply in_map, in_map, in_seq. unfold bins. lia. }
  eexists xf, _, peak. split; [exact Hfft |].
  split; [now rewrite !length_map, length_seq |].
  split; [| split; [exact Hbound |]].
  - apply in_map_iff in Hin. destruct Hin as (z & Hz & Hin).
    apply in_map_iff in Hin. destruct Hin as (j & <- & Hj).
    apply in_seq in Hj. exists j. split; [unfold bins in Hj; lia | exact Hz].
  - intros k Hk Hnz z.
    assert (Hzpos : 0 < Np.cabs z).
    { destruct (cabs_nonneg z) as [H | H]; [exact H |].
      exfalso. apply Hnz. apply cabs_zero_iff. now symmetry. }
    assert (Hpeak : 0 < peak) by (specialize (Hbound k Hk); fold z in Hbound; lra).
    split.
    + rewrite map_map.
      rewrite (nth_indep _ Np.NotANumber
                 (Np.scale 20 (Np.log10 (Np.cdiv (Np.dft_bin signal 0) peak))))
        by (rewrite length_map, length_seq; unfold bins; lia).
      rewrite (map_nth (fun k => Np.scale 20 (Np.log10 (Np.cdiv (Np.dft_bin signal k) peak)))).
      rewrite seq_nth by (unfold bins; lia). cbn [Nat.add].
      now apply db_value_finite.
    + assert (Hq : 0 < Np.cabs z / peak <= 1).
      { split.
        - now apply Rdiv_lt_0_compat.
        - apply (Rmult_le_reg_r peak); [assumption |].
          unfold Rdiv. rewrite Rmult_assoc, Rinv_l by lra.
          specialize (Hbound k Hk). fold z in Hbound. lra. }
      pose proof (ln_unit_interval _ Hq) as Hln.
      pose proof ln_10_pos as H10.
      assert (Hinv : 0 < / ln 10) by (apply Rinv_0_lt_compat; exact H10).
      assert (ln (Np.cabs z / peak) * / ln 10 <= 0) by nra.
      unfold Rdiv at 1. lra.
Qed.

Lemma cabs_real (x : R) : Np.cabs (x, 0) = Rabs x.
Proof.
  unfold Np.cabs. cbn [fst snd].
  replace (x * x + 0 * 0) with (Rsqr x) by (unfold Rsqr; lra).
  apply sqrt_Rsqr_abs.
Qed.

Lemma Rabs_minus_one : Rabs (-1) = 1.
Proof. unfold Rabs. destruct (Rcase_abs (-1)); lra. Qed.

Lemma atan2_positive_real (x : R) : 0 < x -> Np.atan2 0 x = 0.
Proof.
  intro H. unfold Np.atan2. destruct (Rlt_dec 0 x); [| contradiction].
  replace (0 / x) with 0 by (field; lra). apply atan_0.
Qed.

Lemma atan2_negative_real (x : R) : x < 0 -> Np.atan2 0 x = PI.
Proof.
  intro H. unfold Np.atan2.
  destruct (Rlt_dec 0 x); [lra |].
  destruct (Rlt_dec x 0); [| contradiction].
  destruct (Rle_dec 0 0); [| lra].
  replace (0 / x) with 0 by (field; lra). rewrite atan_0. lra.
Qed.

Lemma imaginary_part_of_negative_bin : 0 < 20 * (PI / ln 10).
Proof.
  pose proof PI_RGT_0. pose proof ln_10_pos.
  apply Rmult_lt_0_compat; [lra |]. apply Rdiv_lt_0_compat; lra.
Qed.

(** The transform of the two-sample signal [[0.0, 1.0]] is [[1, -1]]. *)
Lemma dft_bin_01_0 : Np.dft_bin [0; 1] 0 = (1, 0).
Proof.
  unfold Np.dft_bin. cbn [length seq combine fold_left fst snd].
  replace (2 * PI * INR 0 * INR 0 / INR 2) with 0 by (simpl; lra).
  replace (2 * PI * INR 1 * INR 0 / INR 2) with 0 by (simpl; lra).
  rewrite cos_0, sin_0. f_equal; lra.
Qed.

Lemma dft_bin_01_1 : Np.dft_bin [0; 1] 1 = (-1, 0).
Proof.
  unfold Np.dft_bin. cbn [length seq combine fold_left fst snd].
  replace (2 * PI * INR 0 * INR 1 / INR 2) with 0 by (simpl; lra).
  replace (2 * PI * INR 1 * INR 1 / INR 2) with PI by (simpl; lra).
  rewrite cos_0, sin_0, cos_PI, sin_PI. f_equal; lra.
Qed.

(** The transform of the one-sample signal [[-1.0]] is [[-1]]. *)
Lemma dft_bin_m1_0 : Np.dft_bin [-1] 0 = (-1, 0).
Proof.
  unfold Np.dft_bin. cbn [length seq combine fold_left fst snd].
  replace (2 * PI * INR 0 * INR 0 / INR 1) with 0 by (simpl; lra).
  rewrite cos_0, sin_0. f_equal; lra.
Qed.

(** C2 on the signal [[0.0, 1.0]], whose transform is [[1, -1]] with peak
    modulus 1: the value [fft] gives to bin 1 is the complex number
    [20 log10(-1) = 0 + (20 pi / ln 10) j], not the real number
    [20 log10(|-1| / 1) = 0] of the specification; the modulus is taken for the
    peak only, not for the bin. *)
Theorem fft_bin_value_keeps_phase :
  exists xf y_db,
    fft [0; 1] 44100 = Ok (xf, y_db)
    /\ y_db = [Np.Finite 0 0; Np.Finite 0 (20 * (PI / ln 10))]
    /\ 20 * (PI / ln 10) <> 0
    /\ 20 * (ln (Np.cabs (Np.dft_bin [0; 1] 1) / 1) / ln 10) = 0
    /\ nth 1 y_db Np.NotANumber
       <> Np.Finite (20 * (ln (Np.cabs (Np.dft_bin [0; 1] 1) / 1) / ln 10)) 0.
Proof.
  destruct (fft_unfold [0; 1] 44100) as (xf & peak & Hfft & Hmax);
    [discriminate | lra |].
  cbv zeta in Hfft, Hmax.
  cbn [length Nat.div Nat.divmod Nat.add fst seq map] in Hfft, Hmax.
  rewrite dft_bin_01_0, dft_bin_01_1 in Hfft, Hmax.
  rewrite !cabs_real in Hmax. cbn [Np.max fold_left] in Hmax.
  assert (Hp : peak = 1).
  { injection Hmax as <-. rewrite Rabs_minus_one, Rabs_R1. apply Rmax_left. lra. }
  subst peak.
  pose proof imaginary_part_of_negative_bin as Him.
  assert (Hspec : 20 * (ln (Np.cabs (Np.dft_bin [0; 1] 1) / 1) / ln 10) = 0).
  { rewrite dft_bin_01_1, cabs_real, Rabs_minus_one.
    replace (1 / 1) with 1 by lra. rewrite ln_1. unfold Rdiv; ring. }
  eexists xf, _. split; [exact Hfft |].
  assert (Hval :
    [Np.scale 20 (Np.log10 (Np.cdiv (1, 0) 1));
     Np.scale 20 (Np.log10 (Np.cdiv (-1, 0) 1))]
    = [Np.Finite 0 0; Np.Finite 0 (20 * (PI / ln 10))]).
  { rewrite !db_value_finite by (try lra; intro H; injection H; lra).
    cbn [fst snd]. rewrite !cabs_real, Rabs_minus_one, Rabs_R1.
    replace (1 / 1) with 1 by lra. replace (0 / 1) with 0 by lra.
    replace (-1 / 1) with (-1) by lra.
    rewrite ln_1, atan2_positive_real, atan2_negative_real by lra.
    replace (20 * (0 / ln 10)) with 0 by (unfold Rdiv; ring). reflexivity. }
  rewrite Hval. split; [reflexivity |].
  split; [lra |]. split; [exact Hspec |].
  rewrite Hspec. cbn [nth]. intro H. injection H as H. lra.
Qed.

(** C4 on the signal [[-1.0]]: the only bin, which is the peak, gets the
    value [0 + (20 pi / ln 10) j], so no bin of the returned spectrum
    equals 0 dB. *)
Theorem fft_peak_bin_is_not_zero_db :
  exists xf y_db,
    fft [-1] 44100 = Ok (xf, y_db)
    /\ y_db = [Np.Finite 0 (20 * (PI / ln 10))]
    /\ ~ In (Np.Finite 0 0) y_db.
Proof.
  destruct (fft_unfold [-1] 44100) as (xf & peak & Hfft & Hmax);
    [discriminate | lra |].
  cbv zeta in Hfft, Hmax.
  cbn [length Nat.div Nat.divmod Nat.add fst seq map] in Hfft, Hmax.
  rewrite dft_bin_m1_0 in Hfft, Hmax.
  rewrite cabs_real in Hmax. cbn [Np.max fold_left] in Hmax.
  assert (Hp : peak = 1) by (injection Hmax as <-; apply Rabs_minus_one).
  subst peak.
  pose proof imaginary_part_of_negative_bin as Him.
  eexists xf, _. split; [exact Hfft |].
  assert (Hval : [Np.scale 20 (Np.log10 (Np.cdiv (-1, 0) 1))]
                 = [Np.Finite 0 (20 * (PI / ln 10))]).
  { rewrite db_value_finite by (try lra; intro H; injection H; lra).
    cbn [fst snd]. rewrite cabs_real, Rabs_minus_one.
    replace (1 / 1) with 1 by lra. replace (0 / 1) with 0 by lra.
    replace (-1 / 1) with (-1) by lra.
    rewrite ln_1, atan2_negative_real by lra.
    replace (20 * (0 / ln 10)) with 0 by (unfold Rdiv; ring). reflexivity. }
  rewrite Hval. split; [reflexivity |].
  intros [H | []]. injection H as H. lra.
Qed.

(** The ideal sine of two samples at note 69, whose frequency is 440. *)
Lemma create_saw_two_samples :
  exists s,
    create_saw (IZR SAMPLE_RATE) 2 440 1 None = Ok [0; s] /\ 0 < s.
Proof.
  unfold create_saw, SAMPLE_RATE. cbv zeta.
  destruct (Req_dec_T 44100 0) as [H | _]; [lra |].
  cbn [bind]. unfold Np.zeros. cbn [Z.ltb Z.compare bind].
  change (Z.to_nat 2) with 2%nat. cbn [repeat length fill].
  change (range 1 (1 + 1)) with [1%Z]. cbn [map].
  unfold sample_at. cbn [fold_left freq amp divisor].
  destruct (Rle_dec (44100 / 2) (1 * 440)) as [H | _]; [lra |].
  change (get_amp 1) with 1.
  exists (0 + 1 * (sin (Synth.TAU * (1 * 440) * (0 + 1 / 44100)) / 1)).
  split.
  - f_equal. f_equal.
    replace (Synth.TAU * (1 * 440) * 0) with 0 by lra. rewrite sin_0. lra.
  - assert (Hs : 0 < sin (Synth.TAU * (1 * 440) * (0 + 1 / 44100))).
    { pose proof PI_RGT_0. unfold Synth.TAU. apply sin_gt_0; nra. }
    lra.
Qed.

Lemma dft_bin_two_0 (s : R) : Np.dft_bin [0; s] 0 = (s, 0).
Proof.
  unfold Np.dft_bin. cbn [length seq combine fold_left fst snd].
  replace (2 * PI * INR 0 * INR 0 / INR 2) with 0 by (simpl; lra).
  replace (2 * PI * INR 1 * INR 0 / INR 2) with 0 by (simpl; lra).
  rewrite cos_0, sin_0. f_equal; lra.
Qed.

(** The spectrum of two samples of silence: the peak is zero and every
    value is a NaN. *)
Lemma fft_silence (sample_rate : R) :
  sample_rate <> 0 ->
  exists xf, fft [0; 0] sample_rate = Ok (xf, [Np.NotANumber; Np.NotANumber]).
Proof.
  intro Hsr.
  destruct (fft_unfold [0; 0] sample_rate) as (xf & peak & Hfft & Hmax);
    [discriminate | assumption |].
  cbv zeta in Hfft, Hmax.
  cbn [length Nat.div Nat.divmod Nat.add fst seq map] in Hfft, Hmax.
  assert (Hz : forall k, Np.dft_bin [0; 0] k = (0, 0)).
  { intro k. unfold Np.dft_bin. cbn [length seq combine fold_left fst snd].
    f_equal; lra. }
  rewrite !Hz in Hfft, Hmax.
  rewrite (proj2 (cabs_zero_iff (0, 0)) eq_refl) in Hmax.
  cbn [Np.max fold_left] in Hmax.
  assert (Hp : peak = 0) by (injection Hmax as <-; apply Rmax_left; lra).
  subst peak. exists xf. rewrite Hfft, db_value_zero_peak. reflexivity.
Qed.

Lemma heatmap_rendered_column_from_ideal_witness :
  exists spectra_ideal spectra tr,
    heatmap silent_engine "sine" (1 / 16384) 69 70 0 "viridis" []
    = (Ok (spectra_ideal, spectra), tr)
    /\ spectra = spectra_ideal
    /\ (exists re im, nth 0 (nth 0 spectra []) Np.NotANumber = Np.Finite re im)
    /\ exists l xf,
        render silent_engine tt 1024 2 "sine" = Ok (l, l, tt)
        /\ (s <- smooth_edges l 0 ;; fft s (IZR SAMPLE_RATE))
           = Ok (xf, [Np.NotANumber; Np.NotANumber]).
Proof.
  assert (Hint : Py.int (1 / 16384 * IZR SAMPLE_RATE) = 2%Z).
  { apply py_int_floor; unfold SAMPLE_RATE; simpl; lra. }
  destruct create_saw_two_samples as (s & Hsaw & Hs).
  assert (Hrun : exists mi mr tr,
    heatmap silent_engine "sine" (1 / 16384) 69 70 0 "viridis" []
    = (Ok (mi, mr), tr)).
  { unfold heatmap, heatmap_spectra. cbv zeta. rewrite Hint.
    replace (strip (lower "sine")) with "sine"%string by reflexivity.
    change (harmonics_of "sine") with (@Ok Z 1%Z).
    change (range 69 70) with [69%Z].
    cbn [heatmap_loop]. unfold heatmap_note. cbv zeta.
    destruct (linspace_ok 0 (1 / 16384) 2) as (ts & Hts & _); [lia |].
    destruct (fft_total [0; s] (IZR SAMPLE_RATE)) as (xf & y_db & Hfft & _);
      [discriminate | unfold SAMPLE_RATE; lra |].
    unfold initialize_synth, shape_float. cbv zeta.
    replace (strip (lower "sine")) with "sine"%string by reflexivity.
    cbn [String.eqb Ascii.eqb Bool.eqb].
    unfold bindM, lift, call, retM. cbv beta iota.
    rewrite freq_for_A4. cbv beta iota.
    rewrite Hts. cbv beta iota. rewrite Hsaw. cbv beta iota.
    rewrite smooth_edges_zero. cbv beta iota. rewrite Hfft.
    cbn [silent_engine core_wrapper update_param note_on render note_off
         fst snd].
    cbv beta iota. rewrite ?smooth_edges_zero. cbv beta iota.
    rewrite ?Hfft. cbv beta iota.
    do 3 eexists. reflexivity. }
  destruct Hrun as (mi & mr & tr & Hrun).
  destruct (heatmap_rendered_column_from_ideal _ _ _ _ _ _ _ _ _ _ _ Hrun)
    as (Heq & harmonics & columns & Hh & Htr & Hlen & Hcol).
  exists mi, mr, tr. split; [exact Hrun |]. split; [exact Heq |]. split.
  - destruct (Hcol 0%nat 69%Z eq_refl)
      as (freq & sig & sm & xf & col & Hq & Hc & Hsm & Hf & Hnth).
    replace (strip (lower "sine")) with "sine"%string in Hh by reflexivity.
    injection Hh as <-.
    rewrite freq_for_A4 in Hq. injection Hq as <-.
    rewrite Hint, Hsaw in Hc. injection Hc as <-.
    rewrite smooth_edges_zero in Hsm. injection Hsm as <-.
    change (range 69 70) with [69%Z] in Hlen.
    destruct columns as [| c0 [| c1 rest]]; try discriminate.
    cbn in Hnth. injection Hnth as ->.
    destruct (fft_bin_value [0; s] (IZR SAMPLE_RATE))
      as (xf' & y_db & peak & Hf' & Hl' & _ & _ & Hbin);
      [discriminate | unfold SAMPLE_RATE; lra |].
    rewrite Hf in Hf'. injection Hf' as <- <-.
    destruct (Hbin 0%nat) as [Hv _].
    { cbn. lia. }
    { rewrite dft_bin_two_0. intro H. injection H as H. lra. }
    rewrite Htr. cbn [transpose].
    destruct col as [| v0 rest]; [discriminate |].
    cbn [map nth] in *. rewrite Hv. do 2 eexists. reflexivity.
  - exists [0; 0]. destruct (fft_silence (IZR SAMPLE_RATE)) as (xf & Hx);
      [unfold SAMPLE_RATE; lra |].
    exists xf. split; [reflexivity |].
    rewrite smooth_edges_zero. exact Hx.
Defined.

(** * Further properties of the analysis pipeline *)

(** ** [smooth_edges]: length, domain and scaling *)

Lemma slice_bound_range (len i : Z) :
  (0 <= len)%Z -> (0 <= slice_bound len i <= len)%Z.
Proof. intro H. unfold slice_bound. destruct (Z.ltb_spec i 0); lia. Qed.

(** A slice assignment never changes the length of the array. *)
Lemma set_slice_length (xs v out : list R) (i j : option Z) :
  Np.set_slice xs i j v = Ok out -> length out = length xs.
Proof.
  unfold Np.set_slice.
  set (len := Z.of_nat (length xs)).
  assert (Hs : (0 <= slice_start len i <= len)%Z).
  { destruct i as [i |]; cbn [slice_start];
      [apply slice_bound_range |]; lia. }
  assert (Ht : (0 <= slice_stop len j <= len)%Z).
  { destruct j as [j |]; cbn [slice_stop];
      [apply slice_bound_range |]; lia. }
  set (a := Z.to_nat (slice_start len i)).
  set (k := Z.to_nat (slice_stop len j - slice_start len i)).
  assert (Hak : (a + k <= length xs)%nat) by lia.
  destruct (Nat.eqb_spec (length v) k) as [Hv | _].
  - intro H. injection H as <-.
    rewrite !length_app, length_firstn, length_skipn. lia.
  - destruct (Nat.eqb_spec (length v) 1) as [_ | _]; [| discriminate].
    intro H. injection H as <-.
    rewrite !length_app, length_firstn, repeat_length, length_skipn. lia.
Qed.

Lemma imul_slice_length (xs m out : list R) (i j : option Z) :
  Np.imul_slice xs i j m = Ok out -> length out = length xs.
Proof.
  unfold Np.imul_slice.
  destruct (Np.multiply (slice xs i j) m) as [prod | e]; [| discriminate].
  cbn [bind].
  destruct (Nat.eqb (length prod) (length (slice xs i j))); [| discriminate].
  apply set_slice_length.
Qed.

(** X1: whenever [smooth_edges] returns, whatever the ramp length, the
    result has exactly as many samples as the input. *)
Theorem smooth_edges_keeps_length (signal out : list R) (amt : Z) :
  smooth_edges signal amt = Ok out -> length out = length signal.
Proof.
  unfold smooth_edges.
  destruct (Z.eqb_spec amt 0) as [_ | _].
  { intro H. now injection H as <-. }
  destruct (Np.first signal) as [s0 | e]; [| discriminate]. cbn [bind].
  cbv zeta.
  destruct (nonzero s0).
  - destruct (Np.linspace 0 1 amt) as [up | e]; [| discriminate]. cbn [bind].
    destruct (Np.multiply _ up) as [prod | e]; [| discriminate]. cbn [bind].
    destruct (Np.set_slice signal _ _ prod) as [s1 | e] eqn:H1; [| discriminate].
    cbn [bind]. apply set_slice_length in H1.
    destruct (Np.last s1) as [sl | e]; [| discriminate]. cbn [bind].
    destruct (nonzero sl).
    + destruct (Np.linspace 1 0 amt) as [down | e]; [| discriminate]. cbn [bind].
      destruct (Np.imul_slice s1 _ _ down) as [s2 | e] eqn:H2; [| discriminate].
      cbn [bind]. apply imul_slice_length in H2.
      intro H. injection H as <-. congruence.
    + cbn [bind]. intro H. injection H as <-. exact H1.
  - cbn [bind].
    destruct (Np.last signal) as [sl | e]; [| discriminate]. cbn [bind].
    destruct (nonzero sl).
    + destruct (Np.linspace 1 0 amt) as [down | e]; [| discriminate]. cbn [bind].
      destruct (Np.imul_slice signal _ _ down) as [s2 | e] eqn:H2; [| discriminate].
      cbn [bind]. apply imul_slice_length in H2.
      intro H. now injection H as <-.
    + cbn [bind]. intro H. now injection H as <-.
Qed.

Lemma smooth_edges_keeps_length_witness :
  exists out, smooth_edges [1; 2; 3] 3 = Ok out /\ length out = 3%nat.
Proof.
  destruct (smooth_edges_in_range [1; 2; 3] 3) as (out & Hout & _);
    [simpl; lia |].
  exists out. split; [exact Hout |].
  exact (smooth_edges_keeps_length [1; 2; 3] out 3 Hout).
Defined.

(** A ramp length outside [0, len(signal)] fails as soon as one end
    sample is nonzero: a negative length is refused by [np.linspace], a
    length beyond the signal by the shapes of the product. *)
Lemma smooth_edges_out_of_range (signal : list R) (amt : Z) :
  signal <> [] ->
  (amt < 0)%Z \/ (Z.of_nat (length signal) < amt)%Z ->
  nth 0 signal 0 <> 0 \/ List.last signal 0 <> 0 ->
  smooth_edges signal amt = Raise ValueError.
Proof.
  intros Hne Hamt Hnz. unfold smooth_edges.
  destruct (Z.eqb_spec amt 0); [lia |].
  rewrite first_ok by assumption. cbn [bind]. cbv zeta.
  destruct (Req_dec_T (nth 0 signal 0) 0) as [Hz | Hnz0].
  - rewrite (nonzero_false _ Hz). cbn [bind].
    rewrite last_ok by assumption. cbn [bind].
    destruct Hnz as [Hnz | Hnz]; [contradiction |].
    rewrite (nonzero_true _ Hnz).
    destruct Hamt as [Hneg | Hlong].
    + now rewrite linspace_negative.
    + assert (Hn : (2 <= length signal)%nat).
      { destruct signal as [| x [| y rest]]; simpl in *; try congruence; lia. }
      now rewrite (ramp_down_too_long signal amt Hn Hlong).
  - rewrite (nonzero_true _ Hnz0).
    destruct Hamt as [Hneg | Hlong].
    + now rewrite linspace_negative.
    + now rewrite (ramp_up_too_long signal amt Hne Hlong).
Qed.

(** With both end samples exactly zero both ramps are skipped. *)
Lemma smooth_edges_zero_ends (signal : list R) (amt : Z) :
  signal <> [] -> nth 0 signal 0 = 0 -> List.last signal 0 = 0 ->
  smooth_edges signal amt = Ok signal.
Proof.
  intros Hne H0 Hl. unfold smooth_edges.
  destruct (Z.eqb_spec amt 0); [reflexivity |].
  rewrite first_ok by assumption. cbn [bind]. cbv zeta.
  rewrite (nonzero_false _ H0). cbn [bind].
  rewrite last_ok by assumption. cbn [bind].
  now rewrite (nonzero_false _ Hl).
Qed.

(** X2: the exact domain of [smooth_edges].  It returns a signal if and
    only if the ramp length is 0, or the signal is nonempty and either
    the ramp length lies in [1, len(signal)] or both end samples are
    exactly zero (both ramps are then skipped, so that even a negative or
    an oversized ramp length goes unnoticed). *)
Theorem smooth_edges_succeeds_iff (signal : list R) (amt : Z) :
  (exists out, smooth_edges signal amt = Ok out)
  <-> amt = 0%Z
      \/ (signal <> []
          /\ ((1 <= amt <= Z.of_nat (length signal))%Z
              \/ (nth 0 signal 0 = 0 /\ List.last signal 0 = 0))).
Proof.
  split.
  - intros [out Hout].
    destruct (Z.eq_dec amt 0) as [-> | Hamt]; [now left |]. right.
    assert (Hne : signal <> []).
    { intros ->. unfold smooth_edges in Hout.
      destruct (Z.eqb_spec amt 0); [contradiction | discriminate]. }
    split; [exact Hne |].
    destruct (Z_le_gt_dec 1 amt) as [H1 | H1];
      [destruct (Z_le_gt_dec amt (Z.of_nat (length signal))) as [H2 | H2] |].
    + now left.
    + right.
      destruct (Req_dec_T (nth 0 signal 0) 0) as [H0 | H0];
        [destruct (Req_dec_T (List.last signal 0) 0) as [Hl | Hl] |].
      * now split.
      * rewrite smooth_edges_out_of_range in Hout;
          [discriminate | assumption | right; lia | now right].
      * rewrite smooth_edges_out_of_range in Hout;
          [discriminate | assumption | right; lia | now left].
    + right.
      destruct (Req_dec_T (nth 0 signal 0) 0) as [H0 | H0];
        [destruct (Req_dec_T (List.last signal 0) 0) as [Hl | Hl] |].
      * now split.
      * rewrite smooth_edges_out_of_range in Hout;
          [discriminate | assumption | left; lia | now right].
      * rewrite smooth_edges_out_of_range in Hout;
          [discriminate | assumption | left; lia | now left].
  - intros [-> | [Hne [Hin | [H0 Hl]]]].
    + now exists signal.
    + destruct (smooth_edges_in_range signal amt Hin) as (out & Hout & _).
      now exists out.
    + exists signal. now apply smooth_edges_zero_ends.
Qed.

Lemma smooth_edges_succeeds_iff_witness :
  (exists out, smooth_edges [0; 5; 0] (-7) = Ok out)
  /\ ~ (exists out, smooth_edges [0; 5; 1] (-7) = Ok out).
Proof.
  split.
  - apply (proj2 (smooth_edges_succeeds_iff [0; 5; 0] (-7))).
    right. split; [discriminate |]. right. simpl. split; reflexivity.
  - intro H. apply (proj1 (smooth_edges_succeeds_iff [0; 5; 1] (-7))) in H.
    destruct H as [H | [_ [H | [_ H]]]]; [lia | lia | simpl in H; lra].
Defined.

(** The samples of [np.linspace] for two samples or more. *)
Lemma linspace_nth (start stop : R) (num : Z) (mask : list R) (i : nat) :
  (2 <= num)%Z ->
  Np.linspace start stop num = Ok mask ->
  (i < Z.to_nat num)%nat ->
  nth i mask 0
  = if Nat.eqb i (Z.to_nat num - 1) then stop
    else INR i * ((stop - start) / IZR (num - 1)) + start.
Proof.
  intros Hnum Hm Hi. unfold Np.linspace in Hm.
  destruct (Z.ltb_spec num 0); [lia |]. cbv zeta in Hm.
  destruct (Z.ltb_spec 0 (num - 1)); [| lia].
  destruct (Z.ltb_spec 1 num); [| lia].
  injection Hm as <-.
  set (a := Z.to_nat num) in *.
  set (f := fun v : R => v * ((stop - start) / IZR (num - 1)) + start).
  assert (Hl : length (map f (map (fun k : nat => INR k) (seq 0 a))) = a)
    by now rewrite !length_map, length_seq.
  assert (Hr : length (removelast (map f (map (fun k : nat => INR k) (seq 0 a))))
               = (a - 1)%nat) by (rewrite removelast_len, Hl; lia).
  destruct (Nat.eqb_spec i (a - 1)) as [-> | Hne].
  - rewrite app_nth2 by lia. rewrite Hr, Nat.sub_diag. reflexivity.
  - rewrite app_nth1 by lia.
    rewrite removelast_firstn_len, Hl, nth_firstn.
    destruct (Nat.ltb_spec i (Nat.pred a)); [| lia].
    rewrite map_map.
    rewrite (nth_indep _ 0 (f (INR 0))) by (rewrite length_map, length_seq; lia).
    rewrite (map_nth (fun k : nat => f (INR k))).
    rewrite seq_nth by lia. reflexivity.
Qed.

(** The rising ramp is [i / (amt - 1)], the falling ramp [1 - i / (amt - 1)]. *)
Lemma ramp_up_values (amt : Z) (up : list R) (i : nat) :
  (2 <= amt)%Z -> Np.linspace 0 1 amt = Ok up -> (i < Z.to_nat amt)%nat ->
  nth i up 0 = INR i / INR (Z.to_nat amt - 1).
Proof.
  intros Hamt Hup Hi. rewrite (linspace_nth 0 1 amt up i Hamt Hup Hi).
  assert (Hd : IZR (amt - 1) = INR (Z.to_nat amt - 1)).
  { rewrite INR_IZR_INZ. f_equal. lia. }
  assert (Hpos : 0 < INR (Z.to_nat amt - 1)) by (apply lt_0_INR; lia).
  destruct (Nat.eqb_spec i (Z.to_nat amt - 1)) as [-> | _].
  - field. lra.
  - rewrite Hd. field. lra.
Qed.

Lemma ramp_down_values (amt : Z) (down : list R) (i : nat) :
  (2 <= amt)%Z -> Np.linspace 1 0 amt = Ok down -> (i < Z.to_nat amt)%nat ->
  nth i down 0 = 1 - INR i / INR (Z.to_nat amt - 1).
Proof.
  intros Hamt Hdown Hi. rewrite (linspace_nth 1 0 amt down i Hamt Hdown Hi).
  assert (Hd : IZR (amt - 1) = INR (Z.to_nat amt - 1)).
  { rewrite INR_IZR_INZ. f_equal. lia. }
  assert (Hpos : 0 < INR (Z.to_nat amt - 1)) by (apply lt_0_INR; lia).
  destruct (Nat.eqb_spec i (Z.to_nat amt - 1)) as [-> | _].
  - field. lra.
  - rewrite Hd. field. lra.
Qed.

Lemma ramp_fraction_unit (i a : nat) :
  (i < a)%nat -> (2 <= a)%nat -> 0 <= INR i / INR (a - 1) <= 1.
Proof.
  intros Hi Ha.
  assert (Hpos : 0 < INR (a - 1)) by (apply lt_0_INR; lia).
  assert (Hle : INR i <= INR (a - 1)) by (apply le_INR; lia).
  pose proof (pos_INR i) as H0.
  split.
  - apply Rmult_le_pos; [assumption | left; now apply Rinv_0_lt_compat].
  - apply (Rmult_le_reg_r (INR (a - 1))); [assumption |].
    unfold Rdiv. rewrite Rmult_assoc, Rinv_l by lra. lra.
Qed.

(** Both ramps of [smooth_edges] lie between 0 and 1. *)
Lemma ramp_unit (start stop : R) (amt : Z) (mask : list R) (i : nat) :
  (start = 0 /\ stop = 1) \/ (start = 1 /\ stop = 0) ->
  (1 <= amt)%Z -> Np.linspace start stop amt = Ok mask ->
  0 <= nth i mask 0 <= 1.
Proof.
  intros Hends Hamt Hm.
  destruct (linspace_ok start stop amt) as (m & Hm' & Hlen & _ & _ & H1); [lia |].
  rewrite Hm in Hm'. injection Hm' as <-.
  destruct (Nat.lt_ge_cases i (Z.to_nat amt)) as [Hi | Hi].
  - destruct (Z.eq_dec amt 1) as [-> | Hne].
    + rewrite (H1 eq_refl). destruct i as [| [| i]]; cbn [nth];
        destruct Hends as [[-> ->] | [-> ->]]; lra.
    + pose proof (ramp_fraction_unit i (Z.to_nat amt) Hi ltac:(lia)) as Hf.
      destruct Hends as [[-> ->] | [-> ->]].
      * rewrite (ramp_up_values amt mask i) by (trivial; lia). exact Hf.
      * rewrite (ramp_down_values amt mask i) by (trivial; lia). lra.
  - rewrite nth_overflow by lia. lra.
Qed.

(** The rising step, sample by sample. *)
Lemma ramp_up_nth (signal : list R) (amt : Z) :
  (1 <= amt <= Z.of_nat (length signal))%Z ->
  exists up s1,
    Np.linspace 0 1 amt = Ok up
    /\ (mask <- Np.linspace 0 1 amt ;;
        prod <- Np.multiply
                  (slice signal (Some 0%Z) (Some (Z.of_nat (length mask)))) mask ;;
        Np.set_slice signal (Some 0%Z) (Some (Z.of_nat (length mask))) prod)
       = Ok s1
    /\ length s1 = length signal
    /\ forall i,
        nth i s1 0
        = (if Nat.ltb i (Z.to_nat amt) then nth i up 0 else 1) * nth i signal 0.
Proof.
  intro Hamt.
  destruct (ramp_up_ok signal amt Hamt) as (up & Hup & Hlen & Hstep).
  set (a := Z.to_nat amt) in *.
  assert (Hz : length (zipmul (firstn a signal) up) = a).
  { rewrite length_zipmul; rewrite length_firstn; lia. }
  exists up, (zipmul (firstn a signal) up ++ skipn a signal).
  split; [exact Hup |]. split; [exact Hstep |]. split.
  - rewrite length_app, Hz, length_skipn. lia.
  - intro i. destruct (Nat.ltb_spec i a) as [Hi | Hi].
    + rewrite app_nth1 by lia.
      rewrite nth_zipmul by (rewrite length_firstn; lia).
      rewrite nth_firstn. destruct (Nat.ltb_spec i a); [lra | lia].
    + rewrite app_nth2 by lia. rewrite Hz, nth_skipn.
      replace (a + (i - a))%nat with i by lia. lra.
Qed.

(** The falling step, sample by sample. *)
Lemma ramp_down_nth (signal : list R) (amt : Z) :
  (1 <= amt <= Z.of_nat (length signal))%Z ->
  exists down s2,
    Np.linspace 1 0 amt = Ok down
    /\ (mask <- Np.linspace 1 0 amt ;;
        Np.imul_slice signal (Some (- Z.of_nat (length mask))%Z) None mask)
       = Ok s2
    /\ length s2 = length signal
    /\ forall i,
        (i < length signal)%nat ->
        nth i s2 0
        = (if Nat.leb (length signal - Z.to_nat amt) i
           then nth (i - (length signal - Z.to_nat amt)) down 0 else 1)
          * nth i signal 0.
Proof.
  intro Hamt.
  destruct (ramp_down_ok signal amt Hamt) as (down & Hdown & Hlen & Hstep).
  set (a := Z.to_nat amt) in *. set (n := length signal) in *.
  assert (Hz : length (zipmul (skipn (n - a) signal) down) = a).
  { rewrite length_zipmul; rewrite length_skipn; fold n; lia. }
  assert (Hf : length (firstn (n - a) signal) = (n - a)%nat).
  { rewrite length_firstn. fold n. lia. }
  exists down, (firstn (n - a) signal ++ zipmul (skipn (n - a) signal) down).
  split; [exact Hdown |]. split; [exact Hstep |]. split.
  - rewrite length_app, Hz, Hf. lia.
  - intros i Hi. destruct (Nat.leb_spec (n - a) i) as [Hge | Hlt].
    + rewrite app_nth2 by lia. rewrite Hf.
      rewrite nth_zipmul by (rewrite length_skipn; fold n; lia).
      rewrite nth_skipn.
      replace (n - a + (i - (n - a)))%nat with i by lia. lra.
    + rewrite app_nth1 by lia.
      rewrite nth_firstn. destruct (Nat.ltb_spec i (n - a)); [lra | lia].
Qed.

(** [smooth_edges] within the range [1 <= amt <= len(signal)], sample by
    sample: each ramp multiplies its window when its gate is open; the
    gate of the falling ramp reads the last sample after the rising ramp. *)
Lemma smooth_edges_in_range_nth (signal : list R) (amt : Z) :
  (1 <= amt <= Z.of_nat (length signal))%Z ->
  exists up down out,
    Np.linspace 0 1 amt = Ok up
    /\ Np.linspace 1 0 amt = Ok down
    /\ smooth_edges signal amt = Ok out
    /\ length out = length signal
    /\ forall i,
        (i < length signal)%nat ->
        let a := Z.to_nat amt in
        let n := length signal in
        let rise k :=
          if (nonzero (nth 0 signal 0) && Nat.ltb k a)%bool
          then nth k up 0 else 1 in
        let gate_down := nonzero (rise (n - 1)%nat * nth (n - 1) signal 0) in
        let fall k :=
          if (gate_down && Nat.leb (n - a) k)%bool
          then nth (k - (n - a)) down 0 else 1 in
        nth i out 0 = fall i * (rise i * nth i signal 0).
Proof.
  intro Hamt.
  destruct (ramp_up_nth signal amt Hamt) as (up & s1 & Hup & Hstep1 & Hlen1 & Hn1).
  destruct (linspace_ok 1 0 amt) as (down & Hdown & _); [lia |].
  exists up, down.
  unfold smooth_edges.
  destruct (Z.eqb_spec amt 0) as [Heq | _]; [lia |].
  rewrite first_ok by (apply length_pos_nonnil; lia). cbn [bind]. cbv zeta.
  set (a := Z.to_nat amt) in *. set (n := length signal) in *.
  destruct (nonzero (nth 0 signal 0)) eqn:Hg1.
  - rewrite Hstep1. cbn [bind].
    rewrite last_ok by (apply length_pos_nonnil; lia). cbn [bind].
    rewrite last_nth, Hlen1. fold n.
    replace (Nat.pred n) with (n - 1)%nat by lia.
    rewrite (Hn1 (n - 1)%nat). cbn [andb].
    destruct (ramp_down_nth s1 amt) as (down' & s2 & Hdown' & Hstep2 & Hlen2 & Hn2);
      [lia |].
    rewrite Hdown in Hdown'. injection Hdown' as <-.
    rewrite Hlen1 in Hn2. fold n a in Hn2.
    destruct (nonzero ((if Nat.ltb (n - 1) a then nth (n - 1) up 0 else 1)
                       * nth (n - 1) signal 0)) eqn:Hg2.
    + rewrite Hstep2. cbn [bind].
      exists s2. repeat split; trivial; [congruence |].
      intros i Hi. cbn [andb]. rewrite (Hn2 i Hi), (Hn1 i). reflexivity.
    + cbn [bind]. exists s1. repeat split; trivial.
      intros i Hi. cbn [andb]. rewrite (Hn1 i). lra.
  - cbn [bind andb].
    rewrite last_ok by (apply length_pos_nonnil; lia). cbn [bind].
    rewrite last_nth. fold n. replace (Nat.pred n) with (n - 1)%nat by lia.
    replace (1 * nth (n - 1) signal 0) with (nth (n - 1) signal 0) by lra.
    destruct (ramp_down_nth signal amt Hamt)
      as (down' & s2 & Hdown' & Hstep2 & Hlen2 & Hn2).
    rewrite Hdown in Hdown'. injection Hdown' as <-.
    fold n a in Hn2.
    destruct (nonzero (nth (n - 1) signal 0)) eqn:Hg2.
    + rewrite Hstep2. cbn [bind].
      exists s2. repeat split; trivial.
      intros i Hi. cbn [andb]. rewrite (Hn2 i Hi). lra.
    + cbn [bind]. exists signal. repeat split; trivial.
      intros i Hi. cbn [andb]. lra.
Qed.

(** A run of [smooth_edges] either returns its input or has a ramp
    length within the signal. *)
Lemma smooth_edges_result_cases (signal out : list R) (amt : Z) :
  smooth_edges signal amt = Ok out ->
  out = signal \/ (1 <= amt <= Z.of_nat (length signal))%Z.
Proof.
  intro Hout.
  destruct (Z.eq_dec amt 0) as [-> | Hamt].
  { left. rewrite smooth_edges_zero in Hout. now injection Hout. }
  assert (Hne : signal <> []).
  { intros ->. unfold smooth_edges in Hout.
    destruct (Z.eqb_spec amt 0); [contradiction | discriminate]. }
  destruct (Z_le_gt_dec 1 amt) as [H1 | H1];
    [destruct (Z_le_gt_dec amt (Z.of_nat (length signal))) as [H2 | H2] |].
  - now right.
  - left.
    destruct (Req_dec_T (nth 0 signal 0) 0) as [H0 | H0];
      [destruct (Req_dec_T (List.last signal 0) 0) as [Hl | Hl] |].
    + rewrite smooth_edges_zero_ends in Hout by assumption. now injection Hout.
    + rewrite smooth_edges_out_of_range in Hout;
        [discriminate | assumption | right; lia | now right].
    + rewrite smooth_edges_out_of_range in Hout;
        [discriminate | assumption | right; lia | now left].
  - left.
    destruct (Req_dec_T (nth 0 signal 0) 0) as [H0 | H0];
      [destruct (Req_dec_T (List.last signal 0) 0) as [Hl | Hl] |].
    + rewrite smooth_edges_zero_ends in Hout by assumption. now injection Hout.
    + rewrite smooth_edges_out_of_range in Hout;
        [discriminate | assumption | left; lia | now right].
    + rewrite smooth_edges_out_of_range in Hout;
        [discriminate | assumption | left; lia | now left].
Qed.

(** X3: [smooth_edges] only attenuates.  In every run that returns, each
    output sample is the input sample at the same index times a factor
    between 0 and 1: no sample is amplified and none changes sign. *)
Theorem smooth_edges_attenuates (signal out : list R) (amt : Z) (i : nat) :
  smooth_edges signal amt = Ok out ->
  exists c, 0 <= c <= 1 /\ nth i out 0 = c * nth i signal 0.
Proof.
  intro Hout.
  destruct (smooth_edges_result_cases signal out amt Hout) as [-> | Hamt].
  { exists 1. split; lra. }
  destruct (smooth_edges_in_range_nth signal amt Hamt)
    as (up & down & out' & Hup & Hdown & Hout' & Hlen & Hnth).
  rewrite Hout in Hout'. injection Hout' as <-.
  destruct (Nat.lt_ge_cases i (length signal)) as [Hi | Hi].
  - specialize (Hnth i Hi). cbv beta zeta in Hnth.
    pose proof (fun k => ramp_unit 0 1 amt up k (or_introl (conj eq_refl eq_refl))
                           ltac:(lia) Hup) as Hu.
    pose proof (fun k => ramp_unit 1 0 amt down k (or_intror (conj eq_refl eq_refl))
                           ltac:(lia) Hdown) as Hd.
    match type of Hnth with
    | _ = ?f * (?r * _) =>
        assert (Hr : 0 <= r <= 1)
          by (match goal with
              | |- 0 <= (if ?b then _ else _) <= 1 =>
                  destruct b; [apply Hu | lra]
              end);
        assert (Hf : 0 <= f <= 1)
          by (match goal with
              | |- 0 <= (if ?b then _ else _) <= 1 =>
                  destruct b; [apply Hd | lra]
              end);
        exists (f * r); split; [nra | rewrite Hnth; ring]
    end.
  - exists 1. rewrite !nth_overflow by lia. split; lra.
Qed.

Lemma smooth_edges_attenuates_witness :
  exists out c,
    smooth_edges [4; -2; 3; 5] 2 = Ok out
    /\ 0 <= c <= 1 /\ nth 3 out 0 = c * 5.
Proof.
  destruct (smooth_edges_in_range [4; -2; 3; 5] 2) as (out & Hout & _);
    [simpl; lia |].
  destruct (smooth_edges_attenuates [4; -2; 3; 5] out 2 3 Hout) as (c & Hc & Hn).
  exists out, c. split; [exact Hout |]. split; [exact Hc | exact Hn].
Defined.

(** X4: the fades of [smooth_edges].  With both end samples nonzero and
    [2 <= amt <= len(signal)], sample [i] of the result is the input
    sample times the fade-in factor [i / (amt - 1)] on the first [amt]
    samples and times the fade-out factor [1 - (i - (len - amt)) / (amt - 1)]
    on the last [amt] samples; where the two windows overlap
    ([2 * amt > len]) both factors apply. *)
Theorem smooth_edges_linear_fades (signal : list R) (amt : Z) :
  nth 0 signal 0 <> 0 ->
  List.last signal 0 <> 0 ->
  (2 <= amt <= Z.of_nat (length signal))%Z ->
  exists out,
    smooth_edges signal amt = Ok out
    /\ length out = length signal
    /\ forall i,
        (i < length signal)%nat ->
        let a := Z.to_nat amt in
        let n := length signal in
        nth i out 0
        = nth i signal 0
          * (if Nat.ltb i a then INR i / INR (a - 1) else 1)
          * (if Nat.leb (n - a) i
             then 1 - INR (i - (n - a)) / INR (a - 1) else 1).
Proof.
  intros Hfirst Hlast Hamt.
  destruct (smooth_edges_in_range_nth signal amt)
    as (up & down & out & Hup & Hdown & Hout & Hlen & Hnth); [lia |].
  exists out. split; [exact Hout |]. split; [exact Hlen |].
  intros i Hi. cbv zeta.
  specialize (Hnth i Hi). cbv beta zeta in Hnth.
  set (a := Z.to_nat amt) in *. set (n := length signal) in *.
  rewrite (nonzero_true _ Hfirst) in Hnth. cbn [andb] in Hnth.
  assert (Hgate :
    nonzero ((if Nat.ltb (n - 1) a then nth (n - 1) up 0 else 1)
             * nth (n - 1) signal 0) = true).
  { apply nonzero_true.
    rewrite last_nth in Hlast. fold n in Hlast.
    replace (Nat.pred n) with (n - 1)%nat in Hlast by lia.
    destruct (Nat.ltb_spec (n - 1) a) as [Hlt | _]; [| lra].
    rewrite (ramp_up_values amt up (n - 1)) by (trivial; lia). fold a.
    replace (n - 1)%nat with (a - 1)%nat by lia.
    assert (0 < INR (a - 1)) by (apply lt_0_INR; lia).
    replace (INR (a - 1) / INR (a - 1)) with 1 by (field; lra).
    replace (n - 1)%nat with (a - 1)%nat in Hlast by lia. lra. }
  rewrite Hgate in Hnth. cbn [andb] in Hnth. rewrite Hnth.
  destruct (Nat.ltb_spec i a) as [Hia | Hia];
    destruct (Nat.leb_spec (n - a) i) as [Hin | Hin];
    rewrite ?(ramp_up_values amt up i) by (trivial; lia);
    rewrite ?(ramp_down_values amt down (i - (n - a))) by (trivial; lia);
    fold a; ring.
Qed.

Lemma smooth_edges_linear_fades_witness :
  exists out,
    smooth_edges [4; 2; 8] 3 = Ok out
    /\ length out = 3%nat
    /\ nth 1 out 0 = 2 * (INR 1 / INR 2) * (1 - INR 1 / INR 2).
Proof.
  destruct (smooth_edges_linear_fades [4; 2; 8] 3)
    as (out & Hout & Hlen & Hnth).
  - simpl. lra.
  - simpl. lra.
  - simpl. lia.
  - exists out. repeat split; trivial.
    apply (Hnth 1%nat). simpl. lia.
Defined.

(** ** [create_saw]: the additive synthesis *)

(** The running sum of the inner loop is the sum of the terms of the
    components below the cut-off. *)
Lemma fold_left_terms (components : list FreqComponent) (cut_at time v : R) :
  fold_left
    (fun v c =>
       if Rle_dec cut_at (freq c) then v
       else v + amp c * (sin (TAU * freq c * time) / divisor c))
    components v
  = v + fold_right Rplus 0
          (map (fun c =>
                  if Rle_dec cut_at (freq c) then 0
                  else amp c * (sin (TAU * freq c * time) / divisor c))
               components).
Proof.
  revert v. induction components as [| c cs IH]; intro v; cbn [fold_left map fold_right].
  - lra.
  - rewrite IH. destruct (Rle_dec cut_at (freq c)); lra.
Qed.

(** The sign of harmonic [h]: plus for the odd ones, minus for the even. *)
Lemma get_amp_power (h : nat) : get_amp (Z.of_nat h) = (-1) ^ (h + 1).
Proof.
  unfold get_amp.
  destruct (Nat.Even_or_Odd h) as [[m ->] | [m ->]].
  - replace (Z.of_nat (2 * m) mod 2)%Z with 0%Z
      by (rewrite Nat2Z.inj_mul, Z.mul_comm, Z.mod_mul; lia).
    cbn [Z.eqb]. replace (2 * m + 1)%nat with (S (2 * m)) by lia.
    now rewrite pow_1_odd.
  - replace (Z.of_nat (2 * m + 1) mod 2)%Z with 1%Z.
    + cbn [Z.eqb]. replace (2 * m + 1 + 1)%nat with (2 * (m + 1))%nat by lia.
      now rewrite pow_1_even.
    + rewrite Nat2Z.inj_add, Nat2Z.inj_mul, Z.add_comm, Z.mul_comm, Z.mod_add by lia.
      reflexivity.
Qed.

Lemma range_from_one_seq (harmonics : Z) :
  range 1 (harmonics + 1) = map Z.of_nat (seq 1 (Z.to_nat harmonics)).
Proof.
  unfold range.
  replace (Z.to_nat (harmonics + 1 - 1)) with (Z.to_nat harmonics) by lia.
  rewrite <- seq_shift, map_map. apply map_ext. intro k. lia.
Qed.

(** X5: the additive synthesis of [create_saw].  For a nonzero sample
    rate and [n >= 0] the result has [n] samples, and sample [i] is the
    sum over the harmonics [h = 1 .. harmonics] whose frequency [h * f0]
    is below the cut-off (the given one, or half the sample rate when it
    is missing or zero) of [(-1)^(h+1) * sin(2 pi h f0 i / sample_rate) / h]. *)
Theorem create_saw_harmonic_sum (sample_rate : R) (n : Z) (f0 : R)
  (harmonics : Z) (cut_at : option R) :
  sample_rate <> 0 -> (0 <= n)%Z ->
  exists out,
    create_saw sample_rate n f0 harmonics cut_at = Ok out
    /\ length out = Z.to_nat n
    /\ forall i,
        (i < Z.to_nat n)%nat ->
        let cutoff :=
          match cut_at with
          | Some c => if nonzero c then c else sample_rate / 2
          | None => sample_rate / 2
          end in
        nth i out 0
        = fold_right Rplus 0
            (map (fun h : nat =>
                    if Rle_dec cutoff (INR h * f0) then 0
                    else (-1) ^ (h + 1)
                         * sin (2 * PI * (INR h * f0) * INR i / sample_rate)
                         / INR h)
                 (seq 1 (Z.to_nat harmonics))).
Proof.
  intros Hsr Hn. unfold create_saw. cbv zeta.
  destruct (Req_dec_T sample_rate 0) as [| _]; [contradiction |].
  cbn [bind]. unfold Np.zeros.
  destruct (Z.ltb_spec n 0); [lia |]. cbn [bind].
  eexists. split; [reflexivity |].
  rewrite length_fill, repeat_length. split; [reflexivity |].
  intros i Hi. rewrite nth_fill by assumption.
  unfold sample_at. rewrite fold_left_terms, Rplus_0_l.
  rewrite range_from_one_seq, !map_map. f_equal.
  apply map_ext. intro h. cbn [freq amp divisor].
  rewrite get_amp_power, <- INR_IZR_INZ.
  destruct (Rle_dec _ (INR h * f0)); [reflexivity |].
  replace (TAU * (INR h * f0) * (0 + INR i * (1 / sample_rate)))
    with (2 * PI * (INR h * f0) * INR i / sample_rate)
    by (unfold TAU; field; assumption).
  unfold Rdiv. ring.
Qed.

Lemma create_saw_harmonic_sum_witness :
  exists out,
    create_saw 44100 4 440 2 None = Ok out
    /\ length out = 4%nat
    /\ nth 3 out 0
       = fold_right Rplus 0
           (map (fun h : nat =>
                   if Rle_dec (44100 / 2) (INR h * 440) then 0
                   else (-1) ^ (h + 1)
                        * sin (2 * PI * (INR h * 440) * INR 3 / 44100) / INR h)
                [1%nat; 2%nat]).
Proof.
  destruct (create_saw_harmonic_sum 44100 4 440 2 None)
    as (out & Hout & Hlen & Hnth); [lra | lia |].
  exists out. repeat split; trivial.
  apply (Hnth 3%nat). simpl. lia.
Defined.

(** At time zero every term is [sin 0 = 0]. *)
Lemma sample_at_time_zero (components : list FreqComponent) (cut_at : R) :
  sample_at components cut_at 0 = 0.
Proof.
  unfold sample_at. rewrite fold_left_terms, Rplus_0_l.
  induction components as [| c cs IH]; cbn [map fold_right]; [reflexivity |].
  rewrite IH. destruct (Rle_dec cut_at (freq c)); [lra |].
  replace (TAU * freq c * 0) with 0 by ring. rewrite sin_0.
  unfold Rdiv. ring.
Qed.

Lemma create_saw_starts_at_zero (sample_rate : R) (n : Z) (f0 : R)
  (harmonics : Z) (cut_at : option R) (signal : list R) :
  create_saw sample_rate n f0 harmonics cut_at = Ok signal ->
  nth 0 signal 0 = 0.
Proof.
  unfold create_saw. cbv zeta.
  destruct (Req_dec_T sample_rate 0); [discriminate |]. cbn [bind].
  destruct (Np.zeros n) as [out | e]; [| discriminate]. cbn [bind].
  intro H. injection H as <-.
  destruct (length out) as [| k]; [reflexivity |].
  cbn [fill nth]. apply sample_at_time_zero.
Qed.

(** X6: no fade-in on a synthesized signal.  Every signal returned by
    [create_saw] starts with the sample 0, so [smooth_edges] skips its
    rising ramp on it: whenever the smoothing returns, every sample
    before the last [amt] ones is the synthesized sample, unchanged. *)
Theorem smooth_edges_of_create_saw_keeps_head
  (sample_rate : R) (n : Z) (f0 : R) (harmonics : Z) (cut_at : option R)
  (amt : Z) (signal out : list R) (i : nat) :
  create_saw sample_rate n f0 harmonics cut_at = Ok signal ->
  smooth_edges signal amt = Ok out ->
  (i < length signal - Z.to_nat amt)%nat ->
  nth 0 signal 0 = 0 /\ nth i out 0 = nth i signal 0.
Proof.
  intros Hsaw Hout Hi.
  pose proof (create_saw_starts_at_zero _ _ _ _ _ _ Hsaw) as H0.
  split; [exact H0 |].
  destruct (smooth_edges_result_cases signal out amt Hout) as [-> | Hamt];
    [reflexivity |].
  destruct (smooth_edges_in_range_nth signal amt Hamt)
    as (up & down & out' & _ & _ & Hout' & _ & Hnth).
  rewrite Hout in Hout'. injection Hout' as <-.
  rewrite (Hnth i) by lia. cbv beta zeta.
  rewrite (nonzero_false _ H0). cbn [andb].
  destruct (Nat.leb_spec (length signal - Z.to_nat amt) i); [lia |].
  rewrite andb_false_r. lra.
Qed.

Lemma smooth_edges_of_create_saw_keeps_head_witness :
  exists signal out,
    create_saw 44100 4 440 1 None = Ok signal
    /\ smooth_edges signal 2 = Ok out
    /\ nth 0 signal 0 = 0
    /\ nth 1 out 0 = nth 1 signal 0.
Proof.
  destruct (create_saw_total 44100 4 440 1 None) as (signal & Hsaw & Hlen);
    [lra | lia |].
  destruct (smooth_edges_in_range signal 2) as (out & Hout & _);
    [rewrite Hlen; simpl; lia |].
  exists signal, out. split; [exact Hsaw |]. split; [exact Hout |].
  apply (smooth_edges_of_create_saw_keeps_head 44100 4 440 1 None 2 signal out 1
           Hsaw Hout).
  rewrite Hlen. simpl. lia.
Defined.

(** When every component is at or above the cut-off, every sample is 0. *)
Lemma fill_silent (components : list FreqComponent) (cut_at dt : R)
  (count : nat) (time : R) :
  (forall c, In c components -> cut_at <= freq c) ->
  fill components cut_at dt count time = repeat 0 count.
Proof.
  intro Hall. revert time.
  induction count as [| k IH]; intro time; [reflexivity |].
  cbn [fill repeat]. f_equal; [| apply IH].
  unfold sample_at. now apply fold_skipped.
Qed.

(** When every harmonic is at or above the effective cut-off, the
    result is [n] zeros. *)
Lemma create_saw_all_dropped (sample_rate : R) (n : Z) (f0 : R)
  (harmonics : Z) (cut_at : option R) :
  sample_rate <> 0 -> (0 <= n)%Z ->
  (forall h : nat,
      (1 <= h)%nat ->
      match cut_at with
      | Some c => if nonzero c then c else sample_rate / 2
      | None => sample_rate / 2
      end <= INR h * f0) ->
  create_saw sample_rate n f0 harmonics cut_at = Ok (repeat 0 (Z.to_nat n)).
Proof.
  intros Hsr Hn Hall. unfold create_saw. cbv zeta.
  destruct (Req_dec_T sample_rate 0) as [| _]; [contradiction |].
  cbn [bind]. unfold Np.zeros.
  destruct (Z.ltb_spec n 0); [lia |]. cbn [bind]. f_equal.
  rewrite repeat_length. apply fill_silent.
  intros c Hc. apply in_map_iff in Hc. destruct Hc as (h & <- & Hh).
  rewrite range_from_one_seq in Hh.
  apply in_map_iff in Hh. destruct Hh as (k & <- & Hk).
  apply in_seq in Hk. cbn [freq].
  rewrite <- INR_IZR_INZ. apply Hall. lia.
Qed.

(** X7: a fundamental at or above half the (positive) sample rate gives
    silence.  With the default cut-off every harmonic is then at or above
    it and is dropped, so [create_saw] returns [n] zeros whatever the
    number of harmonics. *)
Theorem create_saw_silent_above_nyquist (sample_rate : R) (n : Z) (f0 : R)
  (harmonics : Z) :
  0 < sample_rate -> sample_rate / 2 <= f0 -> (0 <= n)%Z ->
  create_saw sample_rate n f0 harmonics None = Ok (repeat 0 (Z.to_nat n)).
Proof.
  intros Hsr Hf0 Hn.
  apply create_saw_all_dropped; [lra | assumption |].
  intros h Hh.
  assert (1 <= INR h) by (change 1 with (INR 1); apply le_INR; lia).
  nra.
Qed.

Lemma create_saw_silent_above_nyquist_witness :
  create_saw 44100 3 30000 64 None = Ok [0; 0; 0].
Proof.
  apply (create_saw_silent_above_nyquist 44100 3 30000 64); [lra | lra | lia].
Defined.

(** ** [fft]: domain, frequency axis, silence, gain *)

Lemma rfft_ok (signal : list R) :
  signal <> [] ->
  Np.rfft signal
  = Ok (map (Np.dft_bin signal) (seq 0 (length signal / 2 + 1))).
Proof. destruct signal; [congruence | reflexivity]. Qed.

Lemma rfftfreq_ok (n : nat) (d : R) :
  INR n * d <> 0 ->
  Np.rfftfreq (Z.of_nat n) d
  = Ok (map (fun k : nat => INR k * (1 / (INR n * d))) (seq 0 (n / 2 + 1))).
Proof.
  intro Hnz. unfold Np.rfftfreq. rewrite <- INR_IZR_INZ.
  destruct (Req_dec_T (INR n * d) 0); [contradiction |].
  f_equal. unfold range.
  replace (Z.to_nat (Z.of_nat n / 2 + 1 - 0)) with (n / 2 + 1)%nat.
  - rewrite map_map. apply map_ext. intro k.
    now rewrite Z.add_0_l, <- INR_IZR_INZ.
  - rewrite Z.sub_0_r. change 2%Z with (Z.of_nat 2).
    rewrite <- Nat2Z.inj_div. lia.
Qed.

Lemma slice_to_length {A : Type} (xs : list A) (k : nat) :
  k = length xs -> slice xs None (Some (Z.of_nat k)) = xs.
Proof.
  intros ->. unfold slice, slice_start, slice_stop, slice_bound.
  destruct (Z.ltb_spec (Z.of_nat (length xs)) 0); [lia |].
  rewrite Z.min_id, Z.sub_0_r, Nat2Z.id. apply firstn_all.
Qed.

(** The result of [fft] in full: the frequency axis depends on the
    number of samples and on the sample rate only. *)
Lemma fft_unfold_axis (signal : list R) (sample_rate : R) :
  signal <> [] -> sample_rate <> 0 ->
  exists peak,
    let n := length signal in
    let yf := map (Np.dft_bin signal) (seq 0 (n / 2 + 1)) in
    fft signal sample_rate
    = Ok (map (fun k : nat => INR k * (1 / (INR n * (1 / sample_rate))))
              (seq 0 (n / 2 + 1)),
          map (fun z => Np.scale 20 (Np.log10 (Np.cdiv z peak))) yf)
    /\ Np.max (map Np.cabs yf) = Ok peak.
Proof.
  intros Hne Hsr. cbv zeta.
  destruct (fft_unfold signal sample_rate Hne Hsr) as (xf & peak & _ & Hmax).
  cbv zeta in Hmax. exists peak. split; [| exact Hmax].
  unfold fft.
  destruct (Req_dec_T sample_rate 0) as [| _]; [contradiction |].
  cbn [bind]. cbv zeta.
  rewrite (rfft_ok signal Hne). cbn [bind].
  rewrite rfftfreq_ok.
  - cbn [bind]. rewrite Hmax. cbn [bind].
    rewrite slice_to_length by now rewrite !length_map, !length_seq.
    reflexivity.
  - intro Hz. apply Rmult_integral in Hz. destruct Hz as [Hz | Hz].
    + apply (INR_eq _ 0%nat) in Hz. destruct signal; [congruence | discriminate].
    + unfold Rdiv in Hz. rewrite Rmult_1_l in Hz.
      now apply Rinv_neq_0_compat in Hz.
Qed.

(** X8: the domain and the frequency axis of [fft].  A zero sample rate
    is a division by zero and an empty signal is refused; otherwise, for
    a signal of [n] samples, the two returned arrays have [n/2 + 1]
    entries each and the frequency of bin [k] is [k * sample_rate / n]. *)
Theorem fft_frequency_axis (signal : list R) (sample_rate : R) :
  (sample_rate = 0 -> fft signal sample_rate = Raise ZeroDivisionError)
  /\ (sample_rate <> 0 -> signal = [] ->
      fft signal sample_rate = Raise ValueError)
  /\ (sample_rate <> 0 -> signal <> [] ->
      exists xf y_db,
        fft signal sample_rate = Ok (xf, y_db)
        /\ length xf = (length signal / 2 + 1)%nat
        /\ length y_db = (length signal / 2 + 1)%nat
        /\ forall k,
            (k <= length signal / 2)%nat ->
            nth k xf 0 = INR k * sample_rate / INR (length signal)).
Proof.
  split; [| split].
  - intro Hsr. unfold fft.
    destruct (Req_dec_T sample_rate 0); [reflexivity | contradiction].
  - intros Hsr ->. unfold fft.
    destruct (Req_dec_T sample_rate 0); [contradiction | reflexivity].
  - intros Hsr Hne.
    destruct (fft_unfold_axis signal sample_rate Hne Hsr) as (peak & Hfft & _).
    cbv zeta in Hfft. do 2 eexists. split; [exact Hfft |].
    split; [now rewrite length_map, length_seq |].
    split; [now rewrite !length_map, length_seq |].
    intros k Hk.
    rewrite (nth_indep _ 0 (INR 0 * (1 / (INR (length signal) * (1 / sample_rate)))))
      by (rewrite length_map, length_seq; lia).
    rewrite (map_nth (fun k : nat =>
                        INR k * (1 / (INR (length signal) * (1 / sample_rate))))).
    rewrite seq_nth by lia. cbn [Nat.add].
    assert (Hn : INR (length signal) <> 0).
    { apply not_0_INR. destruct signal; [congruence | discriminate]. }
    field. split; assumption.
Qed.

Lemma fft_frequency_axis_witness :
  fft [1; 2] 0 = Raise ZeroDivisionError
  /\ fft [] 44100 = Raise ValueError
  /\ exists xf y_db,
      fft [1; 2; 3; 4] 44100 = Ok (xf, y_db)
      /\ length xf = 3%nat /\ length y_db = 3%nat
      /\ nth 2 xf 0 = INR 2 * 44100 / INR 4.
Proof.
  destruct (fft_frequency_axis [1; 2] 0) as (H0 & _).
  destruct (fft_frequency_axis [] 44100) as (_ & He & _).
  destruct (fft_frequency_axis [1; 2; 3; 4] 44100) as (_ & _ & Hok).
  split; [apply H0; reflexivity |].
  split; [apply He; [lra | reflexivity] |].
  destruct Hok as (xf & y_db & Hfft & Hx & Hy & Hax); [lra | discriminate |].
  exists xf, y_db. repeat split; trivial.
  apply (Hax 2%nat). simpl. lia.
Defined.

(** Every bin of the transform of silence is zero. *)
Lemma dft_bin_of_zeros (signal : list R) (k : nat) :
  (forall x, In x signal -> x = 0) -> Np.dft_bin signal k = (0, 0).
Proof.
  intro Hz. unfold Np.dft_bin.
  generalize (INR (length signal)) as n. generalize 0%nat as s.
  induction signal as [| x rest IH]; intros s n; [reflexivity |].
  cbn [length seq combine fold_left fst snd].
  rewrite (Hz x (or_introl eq_refl)).
  replace (0 + 0 * cos (2 * PI * INR s * INR k / n)) with 0 by ring.
  replace (0 - 0 * sin (2 * PI * INR s * INR k / n)) with 0 by ring.
  apply IH. intros y Hy. apply Hz. now right.
Qed.

(** The values [fft] returns for a signal of zeros, when it returns. *)
Lemma fft_silence_values (signal xf : list R) (y_db : list Np.cvalue)
  (sample_rate : R) :
  (forall x, In x signal -> x = 0) ->
  fft signal sample_rate = Ok (xf, y_db) ->
  y_db = repeat Np.NotANumber (length signal / 2 + 1).
Proof.
  intros Hz Hrun.
  assert (Hsr : sample_rate <> 0).
  { intros ->. unfold fft in Hrun.
    destruct (Req_dec_T 0 0); [discriminate | contradiction]. }
  assert (Hne : signal <> []).
  { intros ->. unfold fft in Hrun.
    destruct (Req_dec_T sample_rate 0); discriminate. }
  destruct (fft_unfold signal sample_rate Hne Hsr) as (xf' & peak & Hfft & Hmax).
  cbv zeta in Hfft, Hmax.
  apply np_max_spec in Hmax. destruct Hmax as [Hin _].
  apply in_map_iff in Hin. destruct Hin as (z & Hpk & Hin).
  apply in_map_iff in Hin. destruct Hin as (j & <- & _).
  rewrite (dft_bin_of_zeros signal j Hz) in Hpk.
  rewrite (proj2 (cabs_zero_iff (0, 0)) eq_refl) in Hpk. subst peak.
  assert (Hall : forall b s,
    map (fun k => Np.scale 20 (Np.log10 (Np.cdiv (Np.dft_bin signal k) 0)))
        (seq s b) = repeat Np.NotANumber b).
  { induction b as [| b IH]; intro s; [reflexivity |].
    cbn [seq map repeat].
    rewrite (dft_bin_of_zeros signal s Hz), db_value_zero_peak.
    f_equal. apply IH. }
  rewrite map_map, Hall in Hfft.
  rewrite Hrun in Hfft. now injection Hfft.
Qed.

(** X9: silence in, NaN out.  For a nonempty signal whose samples are all
    zero, [fft] raises nothing: the peak modulus is zero and every one of
    the [n/2 + 1] returned values is a NaN. *)
Theorem fft_of_silence (signal : list R) (sample_rate : R) :
  signal <> [] -> sample_rate <> 0 ->
  (forall x, In x signal -> x = 0) ->
  exists xf,
    fft signal sample_rate
    = Ok (xf, repeat Np.NotANumber (length signal / 2 + 1)).
Proof.
  intros Hne Hsr Hz.
  destruct (fft_total signal sample_rate Hne Hsr) as (xf & y_db & Hfft & _).
  exists xf. rewrite Hfft.
  now rewrite (fft_silence_values signal xf y_db sample_rate Hz Hfft).
Qed.

Lemma fft_of_silence_witness :
  exists xf,
    fft [0; 0; 0; 0] 44100
    = Ok (xf, [Np.NotANumber; Np.NotANumber; Np.NotANumber]).
Proof.
  destruct (fft_of_silence [0; 0; 0; 0] 44100) as (xf & Hfft).
  - discriminate.
  - lra.
  - intros x Hx. simpl in Hx. intuition.
  - exists xf. exact Hfft.
Defined.

(** X10: the real parts of the values of [fft] are the peak-relative
    magnitudes in dB.  For a nonempty signal with a nonzero bin, with
    [peak] the largest modulus over the bins [0 .. n/2]: a nonzero bin
    [Y[k]] gets a finite value whose real part is
    [20 log10(|Y[k]| / peak)], at most 0; a zero bin gets an infinite
    value; and a bin of modulus [peak] exists, whose real part is 0. *)
Theorem fft_real_part_is_db (signal : list R) (sample_rate : R) (k0 : nat) :
  signal <> [] -> sample_rate <> 0 ->
  (k0 <= length signal / 2)%nat -> Np.dft_bin signal k0 <> (0, 0) ->
  exists xf y_db peak,
    fft signal sample_rate = Ok (xf, y_db)
    /\ 0 < peak
    /\ (forall k, (k <= length signal / 2)%nat ->
                  Np.cabs (Np.dft_bin signal k) <= peak)
    /\ (exists j im, (j <= length signal / 2)%nat
                     /\ Np.cabs (Np.dft_bin signal j) = peak
                     /\ nth j y_db Np.NotANumber = Np.Finite 0 im)
    /\ forall k,
        (k <= length signal / 2)%nat ->
        (Np.dft_bin signal k = (0, 0) ->
         nth k y_db Np.NotANumber = Np.Infinite)
        /\ (Np.dft_bin signal k <> (0, 0) ->
            exists re im,
              nth k y_db Np.NotANumber = Np.Finite re im
              /\ re = 20 * (ln (Np.cabs (Np.dft_bin signal k) / peak) / ln 10)
              /\ re <= 0).
Proof.
  intros Hne Hsr Hk0 Hnz0.
  destruct (fft_bin_value signal sample_rate Hne Hsr)
    as (xf & y_db & peak & Hfft & Hlen & (j & Hj & Hpk) & Hbound & Hval).
  destruct (fft_unfold signal sample_rate Hne Hsr) as (xf' & peak' & Hfft' & Hmax).
  cbv zeta in Hfft', Hmax.
  assert (Hpos : 0 < peak).
  { specialize (Hbound k0 Hk0).
    destruct (cabs_nonneg (Np.dft_bin signal k0)) as [H | H]; [lra |].
    exfalso. apply Hnz0. apply cabs_zero_iff. now symmetry. }
  exists xf, y_db, peak. split; [exact Hfft |]. split; [exact Hpos |].
  split; [exact Hbound |]. split.
  - assert (Hjnz : Np.dft_bin signal j <> (0, 0)).
    { intro H. apply cabs_zero_iff in H. lra. }
    destruct (Hval j Hj Hjnz) as [Hv _]. cbv zeta in Hv.
    eexists j, _. split; [exact Hj |]. split; [exact Hpk |].
    rewrite Hv. f_equal. rewrite Hpk.
    replace (peak / peak) with 1 by (field; lra).
    rewrite ln_1. unfold Rdiv. ring.
  - intros k Hk. split.
    + intro Hz.
      assert (Hpeak' : peak' = peak).
      { rewrite Hfft in Hfft'. injection Hfft' as _ Hy.
        apply np_max_spec in Hmax. destruct Hmax as [Hin Hle].
        apply Rle_antisym.
        - apply in_map_iff in Hin. destruct Hin as (z & <- & Hin).
          apply in_map_iff in Hin. destruct Hin as (i & <- & Hi).
          apply in_seq in Hi. apply Hbound. lia.
        - rewrite <- Hpk. apply Hle. apply in_map, in_map, in_seq. lia. }
      subst peak'. rewrite Hfft in Hfft'. injection Hfft' as _ ->.
      change (fst (Nat.divmod (length signal) 1 0 1))
        with (length signal / 2)%nat in *.
      rewrite map_map.
      rewrite (nth_indep _ Np.NotANumber
                 (Np.scale 20 (Np.log10 (Np.cdiv (Np.dft_bin signal 0) peak))))
        by (rewrite length_map, length_seq; lia).
      rewrite (map_nth (fun k => Np.scale 20
                                   (Np.log10 (Np.cdiv (Np.dft_bin signal k) peak)))).
      rewrite seq_nth by lia. cbn [Nat.add].
      rewrite Hz. now apply db_value_zero_bin.
    + intro Hnz. destruct (Hval k Hk Hnz) as [Hv Hle]. cbv zeta in Hv, Hle.
      do 2 eexists. split; [exact Hv |]. split; [reflexivity | exact Hle].
Qed.

Lemma fft_real_part_is_db_witness :
  exists xf y_db peak j im,
    fft [0; 1] 44100 = Ok (xf, y_db)
    /\ 0 < peak
    /\ (j <= 1)%nat
    /\ nth j y_db Np.NotANumber = Np.Finite 0 im.
Proof.
  destruct (fft_real_part_is_db [0; 1] 44100 1)
    as (xf & y_db & peak & Hfft & Hpos & _ & (j & im & Hj & _ & Hv) & _).
  - discriminate.
  - lra.
  - simpl. lia.
  - rewrite dft_bin_01_1. intro H. injection H as H. lra.
  - exists xf, y_db, peak, j, im. repeat split; trivial.
Defined.

(** Scaling the signal scales every bin. *)
Lemma dft_bin_scaled (c : R) (signal : list R) (k : nat) :
  Np.dft_bin (map (Rmult c) signal) k
  = (c * fst (Np.dft_bin signal k), c * snd (Np.dft_bin signal k)).
Proof.
  unfold Np.dft_bin. rewrite length_map.
  generalize (INR (length signal)) as n.
  assert (Hgen : forall (l : list R) (s : nat) (n a b : R),
    fold_left
      (fun (acc : Np.complex) (p : nat * R) =>
         (fst acc + snd p * cos (2 * PI * INR (fst p) * INR k / n),
          snd acc - snd p * sin (2 * PI * INR (fst p) * INR k / n)))
      (combine (seq s (length l)) (map (Rmult c) l)) (c * a, c * b)
    = (c * fst (fold_left
                  (fun (acc : Np.complex) (p : nat * R) =>
                     (fst acc + snd p * cos (2 * PI * INR (fst p) * INR k / n),
                      snd acc - snd p * sin (2 * PI * INR (fst p) * INR k / n)))
                  (combine (seq s (length l)) l) (a, b)),
       c * snd (fold_left
                  (fun (acc : Np.complex) (p : nat * R) =>
                     (fst acc + snd p * cos (2 * PI * INR (fst p) * INR k / n),
                      snd acc - snd p * sin (2 * PI * INR (fst p) * INR k / n)))
                  (combine (seq s (length l)) l) (a, b)))).
  { induction l as [| x l IH]; intros s n a b; [reflexivity |].
    cbn [length seq map combine fold_left fst snd].
    replace (c * a + c * x * cos (2 * PI * INR s * INR k / n))
      with (c * (a + x * cos (2 * PI * INR s * INR k / n))) by ring.
    replace (c * b - c * x * sin (2 * PI * INR s * INR k / n))
      with (c * (b - x * sin (2 * PI * INR s * INR k / n))) by ring.
    apply IH. }
  intro n. specialize (Hgen signal 0%nat n 0 0).
  rewrite !Rmult_0_r in Hgen. exact Hgen.
Qed.

Lemma cabs_scaled_up (c : R) (z : Np.complex) :
  0 <= c -> Np.cabs (c * fst z, c * snd z) = c * Np.cabs z.
Proof.
  intro Hc. unfold Np.cabs. cbn [fst snd].
  replace (c * fst z * (c * fst z) + c * snd z * (c * snd z))
    with (c * c * (fst z * fst z + snd z * snd z)) by ring.
  rewrite sqrt_mult_alt by nra. now rewrite sqrt_square.
Qed.

Lemma np_max_scaled (c : R) (xs : list R) (m : R) :
  0 <= c -> Np.max xs = Ok m -> Np.max (map (Rmult c) xs) = Ok (c * m).
Proof.
  intros Hc. destruct xs as [| x rest]; [discriminate |].
  cbn [Np.max map]. intro H. injection H as <-. f_equal.
  revert x. induction rest as [| y rest IH]; intro x; [reflexivity |].
  cbn [map fold_left]. rewrite RmaxRmult by assumption. apply IH.
Qed.

(** The value of a bin does not change when the bin and the peak are
    scaled by the same positive gain. *)
Lemma db_value_scaled (c : R) (z : Np.complex) (peak : R) :
  0 < c ->
  Np.scale 20 (Np.log10 (Np.cdiv (c * fst z, c * snd z) (c * peak)))
  = Np.scale 20 (Np.log10 (Np.cdiv z peak)).
Proof.
  intro Hc. unfold Np.cdiv. cbn [fst snd].
  destruct (Req_dec_T peak 0) as [-> | Hp].
  - rewrite Rmult_0_r. destruct (Req_dec_T 0 0) as [_ | H]; [| contradiction].
    destruct (Req_dec_T (fst z) 0) as [H1 | H1];
      destruct (Req_dec_T (c * fst z) 0) as [H1' | H1']; try nra;
      try reflexivity.
    destruct (Req_dec_T (snd z) 0) as [H2 | H2];
      destruct (Req_dec_T (c * snd z) 0) as [H2' | H2']; try nra;
      reflexivity.
  - destruct (Req_dec_T (c * peak) 0) as [H | _]; [nra |].
    replace (c * fst z / (c * peak)) with (fst z / peak) by (field; lra).
    replace (c * snd z / (c * peak)) with (snd z / peak) by (field; lra).
    reflexivity.
Qed.

(** X11: the spectrum does not depend on a positive gain.  Multiplying
    every sample by the same [c > 0] leaves both results of [fft], the
    frequency axis and the values, unchanged (errors included). *)
Theorem fft_gain_invariant (c : R) (signal : list R) (sample_rate : R) :
  0 < c ->
  fft (map (Rmult c) signal) sample_rate = fft signal sample_rate.
Proof.
  intro Hc.
  destruct (Req_dec_T sample_rate 0) as [Hsr | Hsr].
  { unfold fft. destruct (Req_dec_T sample_rate 0); [reflexivity | contradiction]. }
  destruct signal as [| x rest] eqn:Hsig; [reflexivity |].
  rewrite <- Hsig.
  assert (Hne : signal <> []) by (subst; discriminate).
  assert (Hne' : map (Rmult c) signal <> []) by (subst; discriminate).
  destruct (fft_unfold_axis signal sample_rate Hne Hsr) as (peak & Hfft & Hmax).
  destruct (fft_unfold_axis _ sample_rate Hne' Hsr) as (peak' & Hfft' & Hmax').
  cbv zeta in *. rewrite length_map in Hfft', Hmax'.
  assert (Hbins : map (Np.dft_bin (map (Rmult c) signal))
                      (seq 0 (length signal / 2 + 1))
                  = map (fun z => (c * fst z, c * snd z))
                      (map (Np.dft_bin signal) (seq 0 (length signal / 2 + 1)))).
  { rewrite map_map. apply map_ext. intro k. apply dft_bin_scaled. }
  rewrite Hbins in Hfft', Hmax'.
  assert (Hpk : peak' = c * peak).
  { rewrite map_map in Hmax'.
    rewrite (map_ext _ (fun z => c * Np.cabs z)) in Hmax'
      by (intro z; apply cabs_scaled_up; lra).
    rewrite <- (map_map Np.cabs (Rmult c)) in Hmax'.
    rewrite (np_max_scaled c _ peak ltac:(lra) Hmax) in Hmax'.
    now injection Hmax'. }
  subst peak'. rewrite Hfft', Hfft. f_equal. f_equal.
  rewrite map_map. apply map_ext. intro z. now apply db_value_scaled.
Qed.

Lemma fft_gain_invariant_witness :
  fft (map (Rmult 3) [1; -2; 5]) 44100 = fft [1; -2; 5] 44100.
Proof.
  apply (fft_gain_invariant 3 [1; -2; 5] 44100). lra.
Defined.

(** ** [freq_for]: octaves *)



(** ** [eparam_path]: nesting *)

Lemma append_nil_r (s : string) : (s ++ "")%string = s.
Proof. induction s as [| c s IH]; cbn; [reflexivity | now rewrite IH]. Qed.

Lemma append_assoc (s1 s2 s3 : string) :
  ((s1 ++ s2) ++ s3)%string = (s1 ++ (s2 ++ s3))%string.
Proof. induction s1 as [| c s1 IH]; cbn; [reflexivity | now rewrite IH]. Qed.

Section Accumulators.

(** A loop that appends [opening elm] to one accumulator and [closing]
    to the other, as the loop of [eparam_path] does. *)
Variable opening : string -> string.
Variable closing : string.

Local Notation "'step'" :=
  (fun (se : string * string) (elm : string) =>
     ((fst se ++ opening elm)%string, (snd se ++ closing)%string)).

Lemma accumulators_from (elms : list string) (s e : string) :
  fst (fold_left step elms (s, e))
  = (s ++ fst (fold_left step elms (EmptyString, EmptyString)))%string
  /\ snd (fold_left step elms (s, e))
     = (e ++ snd (fold_left step elms (EmptyString, EmptyString)))%string.
Proof.
  revert s e.
  induction elms as [| a rest IH]; intros s e.
  - cbn [fold_left fst snd]. now rewrite !append_nil_r.
  - change (fold_left step (a :: rest) (s, e))
      with (fold_left step rest ((s ++ opening a)%string, (e ++ closing)%string)).
    change (fold_left step (a :: rest) (EmptyString, EmptyString))
      with (fold_left step rest (opening a, closing)).
    destruct (IH (s ++ opening a)%string (e ++ closing)%string) as [H1 H2].
    destruct (IH (opening a) closing) as [H3 H4].
    rewrite H1, H2, H3, H4. now rewrite !append_assoc.
Qed.

Lemma closings_commute (elms : list string) :
  (closing ++ snd (fold_left step elms (EmptyString, EmptyString)))%string
  = (snd (fold_left step elms (EmptyString, EmptyString)) ++ closing)%string.
Proof.
  induction elms as [| a rest IH].
  - cbn [fold_left snd]. now rewrite append_nil_r.
  - change (fold_left step (a :: rest) (EmptyString, EmptyString))
      with (fold_left step rest (opening a, closing)).
    destruct (accumulators_from rest (opening a) closing) as [_ H].
    rewrite H, append_assoc. now rewrite IH.
Qed.

Lemma nested_from (elm : string) (rest : list string) (leaf : string) :
  (fst (fold_left step (elm :: rest) (EmptyString, EmptyString)) ++ leaf
     ++ snd (fold_left step (elm :: rest) (EmptyString, EmptyString)))%string
  = (opening elm
       ++ (fst (fold_left step rest (EmptyString, EmptyString)) ++ leaf
             ++ snd (fold_left step rest (EmptyString, EmptyString)))
       ++ closing)%string.
Proof.
  change (fold_left step (elm :: rest) (EmptyString, EmptyString))
    with (fold_left step rest (opening elm, closing)).
  destruct (accumulators_from rest (opening elm) closing) as [H1 H2].
  rewrite H1, H2, closings_commute. now rewrite !append_assoc.
Qed.

End Accumulators.

(** X12: [eparam_path] nests.  The path of no element is [null], and the
    path of [elm] followed by [rest] is the JSON object with the single
    key [elm] whose value is the path of [rest]: the loop's two
    accumulators build the same string as the recursive nesting. *)
Theorem eparam_path_nests :
  Interface.eparam_path [] = "null"%string
  /\ forall (elm : string) (rest : list string),
      Interface.eparam_path (elm :: rest)
      = ("{" ++ Interface.dquote ++ elm ++ Interface.dquote ++ ": "
           ++ Interface.eparam_path rest ++ "}")%string.
Proof.
  split; [reflexivity |].
  intros elm rest. unfold Interface.eparam_path. cbv zeta.
  pose proof (nested_from
                (fun e => "{" ++ Interface.dquote ++ e ++ Interface.dquote ++ ": ")%string
                "}"%string elm rest "null"%string) as H.
  cbv beta in H. rewrite H.
  rewrite !append_assoc. reflexivity.
Qed.

(** ** The two shape tables *)

(** X13: the two shape dispatches agree.  On the lower-cased, stripped
    name, [shape_float] (the oscillator value sent to the engine) and
    [harmonics_of] (the harmonic count of the ideal signal) accept the
    same three names and pair them as sine: 0 and 1, softsaw: 0.4 and 8,
    hardsaw: 0.7 and 64; every other name is refused by both.  A name
    accepted by [harmonics_of] is already normalised, so that
    [shape_float] accepts it again unchanged. *)
Theorem shape_tables_agree (shape : string) :
  let name := strip (lower shape) in
  ((name = "sine"%string
    /\ shape_float shape = Ok 0 /\ harmonics_of name = Ok 1%Z)
   \/ (name = "softsaw"%string
       /\ shape_float shape = Ok (4 / 10) /\ harmonics_of name = Ok 8%Z)
   \/ (name = "hardsaw"%string
       /\ shape_float shape = Ok (7 / 10) /\ harmonics_of name = Ok 64%Z)
   \/ (shape_float shape = Raise ValueError
       /\ harmonics_of name = Raise ValueError))
  /\ (forall h, harmonics_of name = Ok h ->
                shape_float name = shape_float shape).
Proof.
  cbv zeta. unfold shape_float, harmonics_of. cbv zeta.
  destruct (String.eqb_spec (strip (lower shape)) "sine") as [-> | H1].
  { split; [left; repeat split | intros; reflexivity]. }
  destruct (String.eqb_spec (strip (lower shape)) "softsaw") as [-> | H2].
  { split; [right; left; repeat split | intros; reflexivity]. }
  destruct (String.eqb_spec (strip (lower shape)) "hardsaw") as [-> | H3].
  { split; [right; right; left; repeat split | intros; reflexivity]. }
  split; [right; right; right; split; reflexivity | discriminate].
Qed.

(** ** The sweep: calls to the engine, success and matrix shape *)

Lemma validated_shape_float (shape : string) (h : Z) :
  harmonics_of (strip (lower shape)) = Ok h ->
  exists v,
    shape_float shape = Ok v /\ shape_float (strip (lower shape)) = Ok v.
Proof.
  unfold shape_float, harmonics_of. cbv zeta.
  destruct (String.eqb_spec (strip (lower shape)) "sine") as [-> | H1];
    [intros _; now exists 0 |].
  destruct (String.eqb_spec (strip (lower shape)) "softsaw") as [-> | H2];
    [intros _; now exists (4 / 10) |].
  destruct (String.eqb_spec (strip (lower shape)) "hardsaw") as [-> | H3];
    [intros _; now exists (7 / 10) |].
  discriminate.
Qed.

(** The calls of a successful [initialize_synth], exactly. *)
Lemma initialize_synth_calls_exact (E : Engine) (s s' : synth E)
  (shape : string) (tr tr' : list engine_call) :
  initialize_synth E s shape tr = (Ok s', tr') ->
  exists v, shape_float shape = Ok v /\ tr' = tr ++ initialize_synth_calls v.
Proof.
  intro H. unfold initialize_synth in H. cbv zeta in H.
  run_ok H. subst.
  match goal with Hv : shape_float shape = Ok ?v |- _ => exists v end.
  split; [assumption |].
  unfold initialize_synth_calls. cbv zeta.
  repeat rewrite <- app_assoc. reflexivity.
Qed.

(** The calls of a successful iteration of the sweep, exactly. *)
Lemma heatmap_note_calls (E : Engine) (shape : string) (length_sec : R)
  (samples harmonics smooth_samples note : Z)
  (tr tr' : list engine_call) (cols : list Np.cvalue * list Np.cvalue) :
  heatmap_note E shape length_sec samples harmonics smooth_samples 1024
               note tr = (Ok cols, tr') ->
  exists v,
    shape_float shape = Ok v
    /\ tr' = tr ++ sweep_note_calls v samples shape note.
Proof.
  intro H. unfold heatmap_note in H. cbv zeta in H.
  run_ok H.
  match goal with
  | Hi : initialize_synth _ _ _ _ = _ |- _ =>
      apply initialize_synth_calls_exact in Hi; destruct Hi as (v & Hv & ->)
  end.
  exists v. split; [assumption |].
  unfold sweep_note_calls. cbn [app].
  repeat rewrite <- app_assoc. reflexivity.
Qed.

(** The calls of the loop are those of its iterations, in order. *)
Lemma heatmap_loop_calls (body : Z -> M (list Np.cvalue * list Np.cvalue))
  (calls : Z -> list engine_call) :
  (forall note tr cols tr',
      body note tr = (Ok cols, tr') -> tr' = tr ++ calls note) ->
  forall notes spectra_ideal spectra tr res tr',
    heatmap_loop body notes spectra_ideal spectra tr = (Ok res, tr') ->
    tr' = tr ++ flat_map calls notes.
Proof.
  intros Hbody notes.
  induction notes as [| note rest IH]; intros si sp tr res tr' H.
  - cbn [heatmap_loop] in H. apply retM_ok in H. destruct H as [_ ->].
    cbn. now rewrite app_nil_r.
  - cbn [heatmap_loop] in H.
    apply bindM_ok in H. destruct H as (c & tr1 & Hc & H).
    apply Hbody in Hc. apply IH in H. subst.
    cbn [flat_map]. now rewrite app_assoc.
Qed.

(** X15: the engine calls of a successful sweep.  When [heatmap]
    returns, the calls it made are, for each note of
    [range(note_start, note_end)] in ascending order, a fresh
    [CoreWrapper], the nine parameter updates (with the oscillator value
    of the shape), [note_on(note)], [render(1024, samples, shape)] and
    [note_off(note)], and nothing else: the chunk size is always 1024 and
    the shape passed on is the lower-cased, stripped one. *)
Theorem heatmap_calls (E : Engine) (shape : string) (length_sec : R)
  (note_start note_end smooth_samples : Z) (color_map : string)
  (res : list (list Np.cvalue) * list (list Np.cvalue))
  (tr : list engine_call) :
  heatmap E shape length_sec note_start note_end smooth_samples color_map []
  = (Ok res, tr) ->
  exists v,
    shape_float shape = Ok v
    /\ tr = flat_map
              (sweep_note_calls v (Py.int (length_sec * IZR SAMPLE_RATE))
                                (strip (lower shape)))
              (range note_start note_end).
Proof.
  intro H. unfold heatmap in H.
  apply bindM_ok in H. destruct H as (cols & tr1 & Hsp & H).
  apply retM_ok in H. destruct H as [_ ->].
  unfold heatmap_spectra in Hsp. cbv zeta in Hsp.
  apply bindM_ok in Hsp. destruct Hsp as (harmonics & tr0 & Hh & Hloop).
  apply lift_ok in Hh. destruct Hh as [Hh ->].
  destruct (validated_shape_float shape harmonics Hh) as (v & Hv & Hv').
  exists v. split; [exact Hv |].
  eapply heatmap_loop_calls in Hloop; [exact Hloop |].
  intros note t c t' Hb.
  apply heatmap_note_calls in Hb. destruct Hb as (v' & Hv'' & ->).
  rewrite Hv' in Hv''. injection Hv'' as <-. reflexivity.
Qed.

Lemma bindM_lift {A B : Type} (r : result A) (a : A) (k : A -> M B) tr :
  r = Ok a -> bindM (lift r) k tr = k a tr.
Proof. intros ->. reflexivity. Qed.

Lemma bindM_call {A B : Type} (c : engine_call) (r : result A) (a : A)
  (k : A -> M B) tr :
  r = Ok a -> bindM (call c r) k tr = k a (tr ++ [c]).
Proof. intros ->. reflexivity. Qed.

(** On a reliable engine [initialize_synth] succeeds for a known shape. *)
Lemma initialize_synth_succeeds (E : Engine) (s : synth E) (shape : string)
  (v : R) (tr : list engine_call) :
  reliable E -> shape_float shape = Ok v ->
  exists s', initialize_synth E s shape tr
             = (Ok s', tr ++ initialize_synth_calls v).
Proof.
  intros (_ & Hupd & _) Hv. unfold initialize_synth. cbv zeta.
  repeat match goal with
  | |- context [bindM (call ?c (update_param E ?s0 ?p ?x)) ?k ?t] =>
      let s1 := fresh "s" in let Hs := fresh "Hs" in
      destruct (Hupd s0 p x) as [s1 Hs];
      rewrite (bindM_call c _ s1 k t Hs); cbv beta
  | |- context [bindM (lift (shape_float shape)) ?k ?t] =>
      rewrite (bindM_lift _ v k t Hv); cbv beta
  end.
  eexists. unfold retM. f_equal.
  unfold initialize_synth_calls. cbv zeta.
  repeat rewrite <- app_assoc. reflexivity.
Qed.

Lemma smooth_edges_total (signal : list R) (amt : Z) :
  amt = 0%Z \/ (1 <= amt <= Z.of_nat (length signal))%Z ->
  exists out, smooth_edges signal amt = Ok out /\ length out = length signal.
Proof.
  intros [-> | Hamt].
  - exists signal. now rewrite smooth_edges_zero.
  - now apply smooth_edges_in_range.
Qed.

Lemma range_bounds (a b note : Z) :
  In note (range a b) -> (a <= note < b)%Z.
Proof.
  unfold range. intro H. apply in_map_iff in H.
  destruct H as (k & <- & Hk). apply in_seq in Hk. lia.
Qed.

(** One iteration of the sweep succeeds on a reliable engine, for a note
    that has a frequency. *)
Lemma heatmap_note_succeeds (E : Engine) (shape : string) (length_sec : R)
  (samples harmonics smooth_samples chunk_size note : Z) (v : R)
  (tr : list engine_call) :
  reliable E -> shape_float shape = Ok v ->
  (1 <= samples)%Z ->
  smooth_samples = 0%Z \/ (1 <= smooth_samples <= samples)%Z ->
  (note < 12357)%Z ->
  exists col tr',
    heatmap_note E shape length_sec samples harmonics smooth_samples
                 chunk_size note tr = (Ok (col, col), tr')
    /\ length col = (Z.to_nat samples / 2 + 1)%nat.
Proof.
  intros Hrel Hv Hs Hsm Hnote.
  pose proof Hrel as (Hcw & Hupd & Hon & Hrender & Hoff).
  unfold heatmap_note. cbv zeta.
  pose proof (freq_for_returns note Hnote) as Hfreq.
  set (freq := 440 * Rpower 2 (IZR (note - 69) / 12)) in Hfreq.
  destruct (linspace_ok 0 length_sec samples) as (ts & Hts & _); [lia |].
  destruct (create_saw_total (IZR SAMPLE_RATE) samples freq
              harmonics None) as (signal & Hsaw & Hlen);
    [unfold SAMPLE_RATE; lra | lia |].
  destruct (smooth_edges_total signal smooth_samples) as (sm & Hsmooth & Hlsm);
    [rewrite Hlen; lia |].
  destruct (fft_total sm (IZR SAMPLE_RATE)) as (xf & y_db & Hfft & Hly);
    [apply length_pos_nonnil; lia | unfold SAMPLE_RATE; lra |].
  rewrite (bindM_lift _ freq _ _ Hfreq). cbv beta.
  rewrite (bindM_lift _ ts _ _ Hts). cbv beta.
  rewrite (bindM_lift _ signal _ _ Hsaw). cbv beta.
  rewrite (bindM_lift _ sm _ _ Hsmooth). cbv beta.
  rewrite (bindM_lift _ (xf, y_db) _ _ Hfft). cbv beta.
  destruct (Hcw SAMPLE_RATE) as [s0 Hs0].
  rewrite (bindM_call _ _ s0 _ _ Hs0). cbv beta.
  destruct (initialize_synth_succeeds E s0 shape v
              (tr ++ [CoreWrapperCall SAMPLE_RATE]) Hrel Hv) as [s1 Hs1].
  unfold bindM at 1. rewrite Hs1.
  destruct (Hon s1 note) as [s2 Hs2].
  rewrite (bindM_call _ _ s2 _ _ Hs2). cbv beta.
  destruct (Hrender s2 chunk_size samples shape) as [lrs Hlrs].
  rewrite (bindM_call _ _ lrs _ _ Hlrs). cbv beta.
  destruct (Hoff (snd lrs) note) as [s3 Hs3].
  rewrite (bindM_call _ _ s3 _ _ Hs3). cbv beta.
  rewrite (bindM_lift _ sm _ _ Hsmooth). cbv beta.
  rewrite (bindM_lift _ (xf, y_db) _ _ Hfft). cbv beta.
  unfold retM. cbn [snd].
  exists y_db. eexists. split; [reflexivity |].
  rewrite Hly, Hlsm, Hlen. reflexivity.
Qed.

(** The loop succeeds when the iteration of each of its notes does, and
    appends one column per note to each list. *)
Lemma heatmap_loop_succeeds (body : Z -> M (list Np.cvalue * list Np.cvalue))
  (bins : nat) (P : Z -> Prop) :
  (forall note tr, P note -> exists col tr',
      body note tr = (Ok (col, col), tr') /\ length col = bins) ->
  forall notes spectra_ideal spectra tr,
  Forall P notes ->
  exists cols tr',
    heatmap_loop body notes spectra_ideal spectra tr
    = (Ok (spectra_ideal ++ cols, spectra ++ cols), tr')
    /\ length cols = length notes
    /\ Forall (fun col => length col = bins) cols.
Proof.
  intros Hbody notes.
  induction notes as [| note rest IH]; intros si sp tr HP.
  - exists [], tr. cbn [heatmap_loop]. unfold retM. rewrite !app_nil_r.
    repeat split. constructor.
  - cbn [heatmap_loop].
    inversion HP as [| n0 r0 Hnote Hrest]; subst.
    destruct (Hbody note tr Hnote) as (col & tr1 & Hb & Hl).
    unfold bindM at 1. rewrite Hb. cbn [fst snd].
    destruct (IH (si ++ [col]) (sp ++ [col]) tr1 Hrest)
      as (cols & tr2 & Hloop & Hn & Hall).
    exists (col :: cols), tr2. rewrite Hloop.
    rewrite <- !app_assoc. cbn [app length].
    repeat split; [lia | now constructor].
Qed.

(** The transpose of [k >= 1] columns of [b] entries has [b] rows of
    [k] entries. *)
Lemma transpose_shape {A : Type} (cols : list (list A)) (b : nat) :
  cols <> [] -> Forall (fun col => length col = b) cols ->
  length (transpose cols) = b
  /\ Forall (fun row => length row = length cols) (transpose cols).
Proof.
  induction cols as [| col rest IH]; [congruence |].
  intros _ Hall. inversion Hall as [| c r Hc Hr]; subst.
  destruct rest as [| col2 rest'].
  - cbn [transpose]. rewrite length_map. split; [reflexivity |].
    apply Forall_forall. intros row Hrow.
    apply in_map_iff in Hrow. destruct Hrow as (x & <- & _). reflexivity.
  - destruct (IH ltac:(discriminate) Hr) as [Hlen Hrows].
    change (transpose (col :: col2 :: rest'))
      with (map (fun p => fst p :: snd p)
                (combine col (transpose (col2 :: rest')))).
    rewrite length_map, length_combine, Hlen, Nat.min_id.
    split; [reflexivity |].
    apply Forall_forall. intros row Hrow.
    apply in_map_iff in Hrow. destruct Hrow as ([x row'] & <- & Hin).
    apply in_combine_r in Hin.
    rewrite Forall_forall in Hrows. cbn [fst snd length].
    now rewrite (Hrows row' Hin).
Qed.

(** The sweep runs to its end on a reliable engine, when every note of
    the range has a frequency. *)
Lemma heatmap_runs (E : Engine) (shape : string) (length_sec : R)
  (note_start note_end smooth_samples samples harmonics : Z) :
  reliable E ->
  harmonics_of (strip (lower shape)) = Ok harmonics ->
  Py.int (length_sec * IZR SAMPLE_RATE) = samples ->
  (1 <= samples)%Z ->
  smooth_samples = 0%Z \/ (1 <= smooth_samples <= samples)%Z ->
  (note_end <= 12357)%Z ->
  exists cols tr,
    heatmap_spectra E shape length_sec note_start note_end smooth_samples []
    = (Ok (cols, cols), tr)
    /\ length cols = Z.to_nat (note_end - note_start)
    /\ Forall (fun col => length col = (Z.to_nat samples / 2 + 1)%nat) cols.
Proof.
  intros Hrel Hh Hint Hs Hsm Hend.
  destruct (validated_shape_float shape harmonics Hh) as (v & _ & Hv).
  destruct (heatmap_loop_succeeds
              (heatmap_note E (strip (lower shape)) length_sec samples harmonics
                            smooth_samples 1024)
              (Z.to_nat samples / 2 + 1)%nat
              (fun note => (note < 12357)%Z)
              (fun note tr => heatmap_note_succeeds E _ length_sec samples
                                harmonics smooth_samples 1024 note v tr
                                Hrel Hv Hs Hsm)
              (range note_start note_end) [] [] [])
    as (cols & tr & Hloop & Hn & Hall).
  { apply Forall_forall. intros note Hin. apply range_bounds in Hin. lia. }
  cbn [app] in Hloop. exists cols, tr. split; [| split; [| exact Hall]].
  - unfold heatmap_spectra. cbv zeta. rewrite Hint.
    rewrite (bindM_lift _ harmonics _ _ Hh). exact Hloop.
  - rewrite Hn. unfold range. now rewrite length_map, length_seq.
Qed.

Lemma heatmap_of_spectra (E : Engine) (shape : string) (length_sec : R)
  (note_start note_end smooth_samples : Z) (color_map : string)
  (cols1 cols2 : list (list Np.cvalue)) (tr tr' : list engine_call) :
  heatmap_spectra E shape length_sec note_start note_end smooth_samples tr
  = (Ok (cols1, cols2), tr') ->
  heatmap E shape length_sec note_start note_end smooth_samples color_map tr
  = (Ok (transpose cols1, transpose cols2), tr').
Proof. intro H. unfold heatmap, bindM. now rewrite H. Qed.

Lemma silent_engine_reliable : reliable silent_engine.
Proof. repeat split; intros; eexists; reflexivity. Qed.



Lemma heatmap_calls_witness :
  exists res tr,
    heatmap silent_engine "Sine" (1 / 16384) 69 71 0 "viridis" [] = (Ok res, tr)
    /\ tr = sweep_note_calls 0 2 "sine" 69 ++ sweep_note_calls 0 2 "sine" 70.
Proof.
  assert (Hint : Py.int (1 / 16384 * IZR SAMPLE_RATE) = 2%Z).
  { apply py_int_floor; unfold SAMPLE_RATE; simpl; lra. }
  destruct (heatmap_runs silent_engine "Sine" (1 / 16384) 69 71 0 2 1)
    as (cols & tr & Hsp & _);
    [exact silent_engine_reliable | reflexivity | exact Hint | lia | now left
    | lia |].
  pose proof (heatmap_of_spectra _ _ _ _ _ _ "viridis" _ _ _ _ Hsp) as Hrun.
  destruct (heatmap_calls _ _ _ _ _ _ _ _ _ Hrun) as (v & Hv & Htr).
  exists (transpose cols, transpose cols), tr. split; [exact Hrun |].
  rewrite Htr, Hint.
  change (shape_float "Sine") with (@Ok R 0) in Hv. injection Hv as <-.
  change (range 69 71) with [69%Z; 70%Z].
  change (strip (lower "Sine")) with "sine"%string.
  cbn [flat_map]. now rewrite app_nil_r.
Defined.

(** ** [plot_waves] with an unknown shape *)




(** ** Notes at or above half the sample rate *)

Lemma create_saw_ok_nonneg (sample_rate : R) (n : Z) (f0 : R) (harmonics : Z)
  (cut_at : option R) (signal : list R) :
  create_saw sample_rate n f0 harmonics cut_at = Ok signal ->
  sample_rate <> 0 /\ (0 <= n)%Z.
Proof.
  unfold create_saw. cbv zeta.
  destruct (Req_dec_T sample_rate 0); [discriminate |]. cbn [bind].
  unfold Np.zeros. destruct (Z.ltb_spec n 0); [discriminate |].
  intros _. now split.
Qed.

Lemma zeros_ends (k : nat) :
  nth 0 (repeat 0 k) 0 = 0 /\ List.last (repeat 0 k) 0 = 0.
Proof.
  split.
  - destruct k; reflexivity.
  - rewrite last_nth. apply nth_repeat.
Qed.

(** The columns of a successful sweep: each is the spectrum of the
    smoothed ideal signal of its note. *)
Lemma heatmap_columns (E : Engine) (shape : string) (length_sec : R)
  (note_start note_end smooth_samples : Z) (color_map : string)
  (tr tr' : list engine_call)
  (spectra_ideal spectra : list (list Np.cvalue)) :
  heatmap E shape length_sec note_start note_end smooth_samples color_map tr
  = (Ok (spectra_ideal, spectra), tr') ->
  exists harmonics columns,
    spectra_ideal = transpose columns
    /\ spectra = transpose columns
    /\ Forall2
         (fun note column =>
            exists freq signal signal_smooth xf,
              freq_for note = Ok freq
              /\ create_saw (IZR SAMPLE_RATE)
                            (Py.int (length_sec * IZR SAMPLE_RATE))
                            freq harmonics None = Ok signal
              /\ smooth_edges signal smooth_samples = Ok signal_smooth
              /\ fft signal_smooth (IZR SAMPLE_RATE) = Ok (xf, column))
         (range note_start note_end) columns.
Proof.
  intro H. unfold heatmap in H.
  apply bindM_ok in H. destruct H as (cols & tr1 & Hsp & H).
  apply retM_ok in H. destruct H as [H _]. injection H as <- <-.
  unfold heatmap_spectra in Hsp. cbv zeta in Hsp.
  apply bindM_ok in Hsp. destruct Hsp as (harmonics & tr0 & Hh & Hloop).
  apply lift_ok in Hh. destruct Hh as [Hh ->].
  eapply heatmap_loop_ok in Hloop;
    [| intros note t c t' Hb; exact (proj2 (heatmap_note_ok _ _ _ _ _ _ _ _ _ _ _ Hb))].
  destruct Hloop as (pairs & HQ & Hi & Hs).
  cbn [app] in Hi, Hs.
  assert (Hsame : map fst pairs = map snd pairs).
  { clear Hi Hs. induction HQ as [| n p ns ps [Hp _] _ IH]; [reflexivity |].
    cbn [map]. now rewrite Hp, IH. }
  exists harmonics, (map snd pairs).
  split; [now rewrite Hi, Hsame |]. split; [now rewrite Hs |].
  clear Hi Hs Hsame.
  induction HQ as [| n p ns ps [_ Hp] _ IH]; cbn [map]; constructor; assumption.
Qed.

Lemma Forall2_in_r {A B : Type} (Q : A -> B -> Prop) (xs : list A)
  (ys : list B) (y : B) :
  Forall2 Q xs ys -> In y ys -> exists x, In x xs /\ Q x y.
Proof.
  induction 1 as [| x0 y0 xs ys HQ _ IH]; intros [].
  - subst. exists x0. split; [now left | assumption].
  - destruct (IH H) as (x & Hx & Hq). exists x. split; [now right | assumption].
Qed.

(** Every entry of the transpose is an entry of a column. *)
Lemma transpose_entries {A : Type} (P : A -> Prop) (cols : list (list A)) :
  (forall col v, In col cols -> In v col -> P v) ->
  forall row v, In row (transpose cols) -> In v row -> P v.
Proof.
  induction cols as [| col rest IH]; intros Hall row v Hrow Hv; [destruct Hrow |].
  destruct rest as [| col2 rest'].
  - cbn [transpose] in Hrow. apply in_map_iff in Hrow.
    destruct Hrow as (x & <- & Hx). destruct Hv as [<- | []].
    apply (Hall col x); [now left | assumption].
  - change (transpose (col :: col2 :: rest'))
      with (map (fun p => fst p :: snd p)
                (combine col (transpose (col2 :: rest')))) in Hrow.
    apply in_map_iff in Hrow. destruct Hrow as ([x row'] & <- & Hin).
    cbn [fst snd] in Hv. destruct Hv as [<- | Hv].
    + apply (Hall col x); [now left | now apply in_combine_l in Hin].
    + apply (IH (fun c w Hc Hw => Hall c w (or_intror Hc) Hw) row' v);
        [now apply in_combine_r in Hin | assumption].
Qed.

(** The spectrum column of a note at or above half the sample rate. *)
Lemma column_above_nyquist (samples harmonics smooth_samples : Z) (f0 : R)
  (signal signal_smooth xf : list R) (column : list Np.cvalue) :
  IZR SAMPLE_RATE / 2 <= f0 ->
  create_saw (IZR SAMPLE_RATE) samples f0 harmonics None = Ok signal ->
  smooth_edges signal smooth_samples = Ok signal_smooth ->
  fft signal_smooth (IZR SAMPLE_RATE) = Ok (xf, column) ->
  forall v, In v column -> v = Np.NotANumber.
Proof.
  intros Hf0 Hsaw Hsm Hfft.
  destruct (create_saw_ok_nonneg _ _ _ _ _ _ Hsaw) as [Hsr Hn].
  assert (Hpos : 0 < IZR SAMPLE_RATE) by (unfold SAMPLE_RATE; lra).
  rewrite create_saw_all_dropped in Hsaw; [| assumption | assumption |].
  2:{ intros h Hh.
      assert (1 <= INR h) by (change 1 with (INR 1); apply le_INR; lia).
      nra. }
  injection Hsaw as <-.
  assert (Hsame : signal_smooth = repeat 0 (Z.to_nat samples)).
  { destruct (Z.to_nat samples) as [| k] eqn:Hk.
    - destruct (smooth_edges_result_cases _ _ _ Hsm) as [-> | Hr];
        [reflexivity | cbn in Hr; lia].
    - rewrite smooth_edges_zero_ends in Hsm;
        [now injection Hsm | discriminate | apply zeros_ends | apply zeros_ends]. }
  subst signal_smooth.
  assert (Hz : forall x, In x (repeat 0 (Z.to_nat samples)) -> x = 0)
    by (intros x Hx; now apply repeat_spec in Hx).
  rewrite (fft_silence_values _ xf column _ Hz Hfft).
  intros v Hv. now apply repeat_spec in Hv.
Qed.

(** X17: notes at or above half the sample rate give NaN columns.  When
    the frequency of [note_start] (if it has one) is at least 22050 Hz,
    every ideal signal of the sweep is silence (all its harmonics are
    cut), so every entry of both matrices returned by [heatmap] is a NaN.
    The default sweep, up to note 155, runs into such notes. *)
Theorem heatmap_nan_above_nyquist (E : Engine) (shape : string)
  (length_sec : R) (note_start note_end smooth_samples : Z)
  (color_map : string) (tr tr' : list engine_call)
  (spectra_ideal spectra : list (list Np.cvalue)) :
  heatmap E shape length_sec note_start note_end smooth_samples color_map tr
  = (Ok (spectra_ideal, spectra), tr') ->
  (forall f : R, freq_for note_start = Ok f -> IZR SAMPLE_RATE / 2 <= f) ->
  (forall row v, In row spectra_ideal -> In v row -> v = Np.NotANumber)
  /\ (forall row v, In row spectra -> In v row -> v = Np.NotANumber).
Proof.
  intros Hrun Hf.
  destruct (heatmap_columns _ _ _ _ _ _ _ _ _ _ _ Hrun)
    as (harmonics & columns & -> & -> & HQ).
  assert (Hcols : forall col v, In col columns -> In v col -> v = Np.NotANumber).
  { intros col v Hcol Hv.
    destruct (Forall2_in_r _ _ _ col HQ Hcol)
      as (note & Hnote & freq & signal & sm & xf & Hfreq & Hsaw & Hsm & Hfft).
    assert (Hge : (note_start <= note)%Z).
    { apply range_bounds in Hnote. lia. }
    assert (Hfn : IZR SAMPLE_RATE / 2 <= freq).
    { destruct (Z.eq_dec note_start note) as [-> | Hne]; [now apply Hf |].
      pose proof (proj1 (freq_for_value note freq Hfreq)) as Hlt.
      pose proof (freq_for_returns note_start ltac:(lia)) as Hstart.
      pose proof (Hf _ Hstart).
      pose proof (freq_for_lt note_start note _ _ ltac:(lia) Hstart Hfreq).
      lra. }
    exact (column_above_nyquist _ _ _ _ _ _ _ _ Hfn Hsaw Hsm Hfft v Hv). }
  split; intros row v;
    apply (transpose_entries (fun v => v = Np.NotANumber) columns Hcols).
Qed.

Lemma freq_for_141 : freq_for 141 = Ok 28160.
Proof.
  rewrite freq_for_returns by lia. f_equal.
  replace (IZR (141 - 69) / 12) with (INR 6) by (simpl; lra).
  rewrite Rpower_pow by lra. simpl. lra.
Qed.

Lemma heatmap_nan_above_nyquist_witness :
  exists spectra_ideal spectra tr,
    heatmap silent_engine "hardsaw" (1 / 16384) 141 143 0 "viridis" []
    = (Ok (spectra_ideal, spectra), tr)
    /\ length spectra = 2%nat
    /\ forall row v, In row spectra -> In v row -> v = Np.NotANumber.
Proof.
  assert (Hint : Py.int (1 / 16384 * IZR SAMPLE_RATE) = 2%Z).
  { apply py_int_floor; unfold SAMPLE_RATE; simpl; lra. }
  destruct (heatmap_runs silent_engine "hardsaw" (1 / 16384) 141 143 0 2 64)
    as (cols & tr & Hsp & Hk & Hall);
    [exact silent_engine_reliable | reflexivity | exact Hint | lia | now left
    | lia |].
  pose proof (heatmap_of_spectra _ _ _ _ _ _ "viridis" _ _ _ _ Hsp) as Hrun.
  assert (Hf : forall f : R,
             freq_for 141 = Ok f -> IZR SAMPLE_RATE / 2 <= f).
  { intros f H. rewrite freq_for_141 in H. injection H as <-.
    unfold SAMPLE_RATE. lra. }
  exists (transpose cols), (transpose cols), tr.
  split; [exact Hrun |]. split.
  - assert (Hne : cols <> []) by (intros ->; cbn in Hk; lia).
    destruct (transpose_shape cols _ Hne Hall) as [Hrows _].
    rewrite Hrows. reflexivity.
  - apply (proj2 (heatmap_nan_above_nyquist _ _ _ _ _ _ _ _ _ _ _ Hrun Hf)).
Defined.

(** ** Sweeps that reach a note without a frequency *)

Lemma range_cons (a b : Z) : (a < b)%Z -> range a b = a :: range (a + 1) b.
Proof.
  intro Hab. unfold range.
  replace (Z.to_nat (b - a)) with (S (Z.to_nat (b - (a + 1)))) by lia.
  cbn [seq map]. rewrite <- seq_shift, map_map. f_equal.
  - lia.
  - apply map_ext. intro k. lia.
Qed.

Lemma range_last (a b : Z) :
  (a < b)%Z -> nth_error (range a b) (Z.to_nat (b - 1 - a)) = Some (b - 1)%Z.
Proof.
  intro Hab. unfold range. rewrite nth_error_map.
  rewrite (nth_error_nth' _ 0%nat) by (rewrite length_seq; lia).
  rewrite seq_nth by lia. cbn [option_map]. f_equal. lia.
Qed.

(** X21: a sweep returns only if every note of its range has a
    frequency.  When [heatmap] returns for a nonempty range, the range
    ends at note 12357 or before; and a sweep of a known shape that
    starts at note 12357 or above raises [OverflowError] at its first
    note, before any call to the engine. *)
Theorem heatmap_needs_frequencies (E : Engine) (shape : string)
  (length_sec : R) (note_start note_end smooth_samples : Z)
  (color_map : string) (tr : list engine_call) :
  (forall spectra_ideal spectra tr',
      heatmap E shape length_sec note_start note_end smooth_samples color_map tr
      = (Ok (spectra_ideal, spectra), tr') ->
      (note_start < note_end)%Z -> (note_end <= 12357)%Z)
  /\ (forall harmonics,
         harmonics_of (strip (lower shape)) = Ok harmonics ->
         (12357 <= note_start < note_end)%Z ->
         heatmap E shape length_sec note_start note_end smooth_samples
                 color_map tr
         = (Raise OverflowError, tr)).
Proof.
  split.
  - intros spectra_ideal spectra tr' Hrun Hnotes.
    destruct (heatmap_columns _ _ _ _ _ _ _ _ _ _ _ Hrun)
      as (harmonics & columns & _ & _ & HQ).
    destruct (Forall2_nth_error _ _ _ HQ _ _ (range_last _ _ Hnotes))
      as (column & _ & freq & _ & _ & _ & Hfreq & _).
    apply freq_for_value in Hfreq. lia.
  - intros harmonics Hh [Hlo Hnotes].
    unfold heatmap, heatmap_spectra. cbv zeta.
    rewrite (range_cons _ _ Hnotes). cbn [heatmap_loop].
    unfold heatmap_note. cbv zeta.
    unfold bindM, lift. rewrite Hh.
    now rewrite (freq_for_overflow note_start Hlo).
Qed.

Lemma heatmap_needs_frequencies_witness :
  heatmap silent_engine "sine" (4 / 10) 12357 12358 0 "viridis" []
  = (Raise OverflowError, []).
Proof.
  apply (proj2 (heatmap_needs_frequencies silent_engine "sine" (4 / 10)
                  12357 12358 0 "viridis" []) 1%Z).
  - reflexivity.
  - lia.
Defined.

(** ** [smooth_edges] twice *)

(** After a run with a ramp within the signal the first sample is 0. *)
Lemma smooth_edges_in_range_first (signal out : list R) (amt : Z) :
  (1 <= amt <= Z.of_nat (length signal))%Z ->
  smooth_edges signal amt = Ok out -> nth 0 out 0 = 0.
Proof.
  intros Hamt Hout.
  destruct (smooth_edges_in_range_nth signal amt Hamt)
    as (up & down & out' & Hup & _ & Hout' & _ & Hnth).
  rewrite Hout in Hout'. injection Hout' as <-.
  rewrite (Hnth 0%nat) by lia. cbv beta zeta.
  destruct (linspace_ok 0 1 amt) as (up' & Hup' & _ & H0 & _); [lia |].
  rewrite Hup in Hup'. injection Hup' as <-.
  destruct (Req_dec_T (nth 0 signal 0) 0) as [Hz | Hnz].
  - rewrite Hz. ring.
  - rewrite (nonzero_true _ Hnz).
    destruct (Nat.ltb_spec 0 (Z.to_nat amt)); [| lia].
    cbn [andb]. rewrite H0 by lia. ring.
Qed.

(** After a run with a ramp of two samples or more, within the signal,
    the last sample is 0. *)
Lemma smooth_edges_in_range_last (signal out : list R) (amt : Z) :
  (2 <= amt <= Z.of_nat (length signal))%Z ->
  smooth_edges signal amt = Ok out -> List.last out 0 = 0.
Proof.
  intros Hamt Hout.
  destruct (smooth_edges_in_range_nth signal amt)
    as (up & down & out' & _ & Hdown & Hout' & Hlen & Hnth); [lia |].
  rewrite Hout in Hout'. injection Hout' as <-.
  rewrite last_nth, Hlen.
  replace (Nat.pred (length signal)) with (length signal - 1)%nat by lia.
  rewrite (Hnth (length signal - 1)%nat) by lia. cbv beta zeta.
  set (n := length signal) in *. set (a := Z.to_nat amt) in *.
  match goal with |- _ * ?r = 0 => set (x := r) end.
  destruct (Req_dec_T x 0) as [Hz | Hnz]; [rewrite Hz; ring |].
  rewrite (nonzero_true _ Hnz).
  destruct (Nat.leb_spec (n - a) (n - 1)); [| lia].
  cbn [andb].
  rewrite (ramp_down_values amt down (n - 1 - (n - a))) by (trivial; lia).
  fold a. replace (n - 1 - (n - a))%nat with (a - 1)%nat by lia.
  assert (0 < INR (a - 1)) by (apply lt_0_INR; lia).
  replace (1 - INR (a - 1) / INR (a - 1)) with 0 by (field; lra). ring.
Qed.

(** X19: smoothing twice is smoothing once.  Whenever [smooth_edges]
    returns, applying it again with the same ramp length returns the
    same signal: the first run leaves zeros at the ends that close both
    gates (or, for a ramp of one sample, a falling ramp that is 1). *)
Theorem smooth_edges_idempotent (signal out : list R) (amt : Z) :
  smooth_edges signal amt = Ok out -> smooth_edges out amt = Ok out.
Proof.
  intro Hout.
  destruct (smooth_edges_result_cases signal out amt Hout) as [-> | Hamt];
    [exact Hout |].
  destruct (smooth_edges_in_range signal amt Hamt) as (out' & Hout' & Hlen).
  rewrite Hout in Hout'. injection Hout' as <-.
  pose proof (smooth_edges_in_range_first signal out amt Hamt Hout) as Hfirst.
  assert (Hne : out <> []) by (apply length_pos_nonnil; lia).
  destruct (Z.eq_dec amt 1) as [-> | Hne1].
  - destruct (smooth_edges_in_range_nth out 1)
      as (up & down & out2 & _ & Hdown & Hout2 & Hlen2 & Hnth); [lia |].
    rewrite Hout2. f_equal.
    apply (nth_ext _ _ 0 0); [exact Hlen2 |].
    intros i Hi. rewrite Hlen2 in Hi.
    rewrite (Hnth i Hi). cbv beta zeta.
    rewrite (nonzero_false _ Hfirst). cbn [andb].
    destruct (linspace_ok 1 0 1) as (down' & Hdown' & _ & _ & _ & Hd1); [lia |].
    rewrite Hdown in Hdown'. injection Hdown' as <-.
    rewrite (Hd1 eq_refl).
    change (Z.to_nat 1) with 1%nat.
    destruct (nonzero (1 * nth (length out - 1) out 0));
      destruct (Nat.leb_spec (length out - 1) i);
      cbn [andb]; cbv iota; try ring.
    replace (i - (length out - 1))%nat with 0%nat by lia.
    cbn [nth]. ring.
  - apply smooth_edges_zero_ends; [exact Hne | exact Hfirst |].
    apply (smooth_edges_in_range_last signal out amt); [lia | exact Hout].
Qed.

Lemma smooth_edges_idempotent_witness :
  exists out,
    smooth_edges [3; 1; 4; 1; 5] 2 = Ok out /\ smooth_edges out 2 = Ok out.
Proof.
  destruct (smooth_edges_in_range [3; 1; 4; 1; 5] 2) as (out & Hout & _);
    [simpl; lia |].
  exists out. split; [exact Hout |].
  exact (smooth_edges_idempotent [3; 1; 4; 1; 5] out 2 Hout).
Defined.

(** ** [plot_waves]: what is analysed *)

(** X20: single-note mode analyses the rendered signal.  When
    [plot_waves] returns, the signal it shows is the left channel
    returned by [render], cut to [[start:end]] (the whole buffer bounds
    by default) and then smoothed, and the spectrum it shows is [fft] of
    that signal; the ideal curve is the smoothed sine, at the frequency
    of the note, sampled on [linspace(0, time_sec, buf_len)] and cut to
    [end - start] samples. *)
Theorem plot_waves_pipeline (E : Engine) (time_sec : R) (note : Z)
  (shape : string) (smooth_samples chunk_size : Z)
  (cut_start cut_end : option Z) (w : waves) (tr tr' : list engine_call) :
  plot_waves E time_sec note shape smooth_samples chunk_size
             cut_start cut_end tr = (Ok w, tr') ->
  let buf_len := Py.int (time_sec * IZR SAMPLE_RATE) in
  let start := match cut_start with Some c => c | None => 0%Z end in
  let end_ := match cut_end with Some c => c | None => buf_len end in
  exists (freq : R) (s : synth E) lrs ts ys_smooth,
    freq_for note = Ok freq
    /\ render E s chunk_size buf_len shape = Ok lrs
    /\ smooth_edges (slice (fst (fst lrs)) (Some start) (Some end_))
                    smooth_samples = Ok (w_signal w)
    /\ fft (w_signal w) (IZR SAMPLE_RATE) = Ok (w_xf w, w_y_db w)
    /\ Np.linspace 0 time_sec buf_len = Ok ts
    /\ smooth_edges
         (slice (map (fun t => sin (TAU * freq * t)) ts)
                None (Some (end_ - start)%Z))
         smooth_samples = Ok ys_smooth
    /\ w_ys_plot w = map (fun y => 1 * y) ys_smooth.
Proof.
  intro H. cbv zeta. unfold plot_waves in H. cbv zeta in H.
  run_ok H. subst w. cbn [w_signal w_ys_plot w_xf w_y_db].
  match goal with
  | Hq : freq_for _ = Ok ?fr,
    Hr : render E ?s _ _ _ = Ok ?lrs,
    Hts : Np.linspace _ _ _ = Ok ?ts,
    Hys : smooth_edges (slice (Np.sin_array _) _ _) _ = Ok ?ys,
    Hf : fft _ _ = Ok ?p |- _ =>
      exists fr, s, lrs, ts, ys; destruct p as [xf y_db]; cbn [fst snd] in *
  end.
  unfold Np.sin_array in *. rewrite map_map in *.
  repeat split; assumption.
Qed.

Lemma plot_waves_silent_run :
  exists w tr,
    plot_waves silent_engine (1 / 32768) 69 "sine" 0 1024 None None []
    = (Ok w, tr).
Proof.
  assert (Hint : Py.int (1 / 32768 * IZR SAMPLE_RATE) = 1%Z).
  { apply py_int_floor; unfold SAMPLE_RATE; simpl; lra. }
  unfold plot_waves. cbv zeta. rewrite Hint, freq_for_A4.
  destruct (linspace_ok 0 (1 / 32768) 1) as (ts & Hts & _); [lia |].
  rewrite Hts.
  unfold initialize_synth, shape_float. cbv zeta.
  replace (strip (lower "sine")) with "sine"%string by reflexivity.
  cbn [String.eqb Ascii.eqb Bool.eqb].
  cbn [bindM lift call retM silent_engine core_wrapper update_param
       note_on render note_off fst snd].
  rewrite !smooth_edges_zero.
  destruct (fft_total (slice (repeat 0 (Z.to_nat 1)) (Some 0%Z) (Some 1%Z))
                      (IZR SAMPLE_RATE)) as (xf & y_db & Hfft & _).
  { discriminate. }
  { unfold SAMPLE_RATE. lra. }
  rewrite Hfft. do 2 eexists. reflexivity.
Qed.

Lemma plot_waves_pipeline_witness :
  exists w tr lrs,
    plot_waves silent_engine (1 / 32768) 69 "sine" 0 1024 None None []
    = (Ok w, tr)
    /\ render silent_engine tt 1024
              (Py.int (1 / 32768 * IZR SAMPLE_RATE)) "sine" = Ok lrs
    /\ fft (w_signal w) (IZR SAMPLE_RATE) = Ok (w_xf w, w_y_db w).
Proof.
  destruct plot_waves_silent_run as (w & tr & Hrun).
  destruct (plot_waves_pipeline _ _ _ _ _ _ _ _ _ _ _ Hrun)
    as (freq & s & lrs & ts & ys & _ & Hr & _ & Hf & _).
  exists w, tr, lrs. destruct s. repeat split; assumption.
Defined.
